(** * go-cabfile: a shallow embedding of the Cabinet reader and its properties

    The development follows the two Go packages of the repository:
    - [cabfile]  (cabfile/cabfile.go): header, folder and file tables, folder
      decompression, random access ([Content]) and iteration ([Next]);
    - [lvfscab]  (lvfscab/lvfscab.go): [CompareVersions].

    Conventions.  Unsigned machine integers are values of [Z] produced by the
    little-endian decoders below, so they are in range by construction.  A Go
    [[]byte] is a [list byte], a Go [string] is a [string].  The archive is a
    [bytes.Reader]-like source: a byte sequence with a cursor.  Every public
    operation of the package repositions the cursor with an absolute [Seek]
    before it reads, so the cursor is threaded explicitly inside each
    operation and is not part of the state kept between two operations. *)

From Stdlib Require Import ZArith.
From Stdlib.Strings Require Import Byte Ascii.
From stdpp Require Import base tactics option list numbers strings.

Local Open Scope Z_scope.

(* ================================================================== *)
(** * Part I: the embedding *)
(* ================================================================== *)

Module cabfile.

(** ** Errors and outcomes *)

(** The three results a [Read] can report next to its byte count. *)
Inductive ioerr : Type :=
| io_EOF                (* io.EOF *)
| io_ErrUnexpectedEOF   (* io.ErrUnexpectedEOF *)
| io_Other.             (* any other error, e.g. flate.CorruptInputError *)

#[global] Instance ioerr_eq_decision : EqDecision ioerr.
Proof. solve_decision. Defined.

(** One constructor per error site of cabfile.go; the Go message is quoted. *)
Inductive error : Type :=
| TruncatedHeader                       (* "could not deserialize header" *)
| BadSignature                          (* "invalid Cabinet file signature" *)
| ReservedFieldViolation                (* "reserved files must be zero" *)
| UnsupportedVersion (major minor : Z)  (* "Cabinet file version has unsupported version" *)
| UnsupportedMultiPart                  (* "multi-part Cabinet files are unsupported" *)
| TruncatedFolder (i : Z)               (* "could not deserialize folder %d" *)
| UnsupportedAlgorithm (tc : Z)         (* "folder compressed with unsupported algorithm %d" *)
| TruncatedFile (i : Z)                 (* "could not deserialize file %d" *)
| TruncatedName (i : Z)                 (* "could not read filename for file %d" *)
| FolderIndexOutOfRange                 (* "folder number out of range" *)
| TruncatedBlockHeader (i : Z)          (* "could not deserialize data structure %d" *)
| TruncatedBlock (n i expected : Z)     (* "invalid read of size %d in data block %d; expected %d bytes" *)
| BlockReadError (i : Z)                (* "could not read data block %d" *)
| SizeMismatch (cb i uncomp : Z)        (* "compressed bytes %d of data section %d do not equal uncompressed bytes %d ..." *)
| BadBlockSignature (i : Z)             (* "invalid MS-ZIP signature %q in data block %d" *)
| DecompressionFailure (n i expected : Z) (* "invalid decompression of size %d in data block %d; expected %d bytes" *)
| DecompressionError (i : Z)            (* "could not decompress data block %d" *)
| UnsupportedCompression                (* "unsupported compression" *)
| FolderError (idx : Z) (e : error)     (* "could not acquire uncompressed data for folder %d: %v" *)
| OffsetOutOfRange (n expected : Z)     (* "invalid read of size %d of file data; expected %d" *)
| FileReadError (e : ioerr)             (* "could not read file data: %v" *)
| FileNotFound (name : string)          (* "file %q not found in Cabinet" *)
| EndOfSequence.                        (* io.EOF returned by Next *)

(** A Go call either returns a value, returns an error, or panics at run
    time (here: a slice expression out of range). *)
Inductive outcome (A : Type) : Type :=
| Ok (a : A)
| Err (e : error)
| Panic.
Arguments Ok {A} a.
Arguments Err {A} e.
Arguments Panic {A}.

#[global] Instance outcome_ret : MRet outcome := fun A a => Ok a.
#[global] Instance outcome_bind : MBind outcome := fun A B f m =>
  match m with
  | Ok a => f a
  | Err e => Err e
  | Panic => Panic
  end.

(** ** Bytes and little-endian integers (encoding/binary) *)

#[global] Instance byte_eq_decision : EqDecision byte := Byte.byte_eq_dec.

Definition byteZ (b : byte) : Z := Z.of_N (Byte.to_N b).

(** [binary.LittleEndian.Uint16]: [uint16(b[0]) | uint16(b[1])<<8]. *)
Definition Uint16 (b : list byte) : Z :=
  Z.lor (byteZ (nth 0 b x00)) (Z.shiftl (byteZ (nth 1 b x00)) 8).

(** [binary.LittleEndian.Uint32]. *)
Definition Uint32 (b : list byte) : Z :=
  Z.lor (Z.lor (Z.lor (byteZ (nth 0 b x00))
                      (Z.shiftl (byteZ (nth 1 b x00)) 8))
               (Z.shiftl (byteZ (nth 2 b x00)) 16))
        (Z.shiftl (byteZ (nth 3 b x00)) 24).

Definition Uint8 (b : list byte) : Z := byteZ (nth 0 b x00).

(** ** The structures of the file format *)

Record cfHeader : Type := {
  Signature    : list byte;  (* [4]byte *)
  Reserved1    : Z;          (* uint32 *)
  CBCabinet    : Z;          (* uint32 *)
  Reserved2    : Z;          (* uint32 *)
  COFFFiles    : Z;          (* uint32 *)
  Reserved3    : Z;          (* uint32 *)
  VersionMinor : Z;          (* uint8 *)
  VersionMajor : Z;          (* uint8 *)
  CFolders     : Z;          (* uint16 *)
  CFiles       : Z;          (* uint16 *)
  Flags        : Z;          (* uint16 *)
  SetID        : Z;          (* uint16 *)
  ICabinet     : Z           (* uint16 *)
}.

Definition hdrPrevCabinet : Z := 1.
Definition hdrNextCabinet : Z := 2.
Definition hdrReservePresent : Z := 4.

Record cfFolder : Type := {
  COFFCabStart : Z;  (* uint32 *)
  CCFData      : Z;  (* uint16 *)
  TypeCompress : Z   (* uint16 *)
}.

Definition compMask : Z := 15.
Definition compNone : Z := 0.
Definition compMSZIP : Z := 1.
Definition compQuantum : Z := 2.
Definition compLZX : Z := 3.

Record cfFile : Type := {
  CBFile          : Z;  (* uint32 *)
  UOffFolderStart : Z;  (* uint32 *)
  IFolder         : Z;  (* uint16 *)
  Date            : Z;  (* uint16 *)
  Time            : Z;  (* uint16 *)
  Attribs         : Z   (* uint16 *)
}.

Record file : Type := {
  entry : cfFile;   (* the embedded *cfFile *)
  name  : string
}.

Record cfData : Type := {
  Checksum : Z;  (* uint32 *)
  CBData   : Z;  (* uint16 *)
  CBUncomp : Z   (* uint16 *)
}.

(** Sizes of the packed structures, as [binary.Read] computes them. *)
Definition sizeof_cfHeader : nat := 36.
Definition sizeof_cfFolder : nat := 8.
Definition sizeof_cfFile : nat := 16.
Definition sizeof_cfData : nat := 8.

(** Field-by-field little-endian decoding of a filled buffer. *)
Definition decode_cfHeader (b : list byte) : cfHeader := {|
  Signature    := take 4 b;
  Reserved1    := Uint32 (drop 4 b);
  CBCabinet    := Uint32 (drop 8 b);
  Reserved2    := Uint32 (drop 12 b);
  COFFFiles    := Uint32 (drop 16 b);
  Reserved3    := Uint32 (drop 20 b);
  VersionMinor := Uint8 (drop 24 b);
  VersionMajor := Uint8 (drop 25 b);
  CFolders     := Uint16 (drop 26 b);
  CFiles       := Uint16 (drop 28 b);
  Flags        := Uint16 (drop 30 b);
  SetID        := Uint16 (drop 32 b);
  ICabinet     := Uint16 (drop 34 b)
|}.

Definition decode_cfFolder (b : list byte) : cfFolder := {|
  COFFCabStart := Uint32 b;
  CCFData      := Uint16 (drop 4 b);
  TypeCompress := Uint16 (drop 6 b)
|}.

Definition decode_cfFile (b : list byte) : cfFile := {|
  CBFile          := Uint32 b;
  UOffFolderStart := Uint32 (drop 4 b);
  IFolder         := Uint16 (drop 8 b);
  Date            := Uint16 (drop 10 b);
  Time            := Uint16 (drop 12 b);
  Attribs         := Uint16 (drop 14 b)
|}.

Definition decode_cfData (b : list byte) : cfData := {|
  Checksum := Uint32 b;
  CBData   := Uint16 (drop 4 b);
  CBUncomp := Uint16 (drop 6 b)
|}.

(** ** The byte source: bytes.Reader *)

(** [bytes.Reader]: the underlying bytes [s] and the read index [i]. *)
Record Reader : Type := {
  s : list byte;
  i : nat
}.

Definition NewReader (b : list byte) : Reader := {| s := b; i := 0 |}.

(** [Reader.Read(b)] with [len(b) = k]: at or past the end it returns
    [0, io.EOF]; otherwise it copies [min k (len s - i)] bytes and advances. *)
Definition Reader_Read (r : Reader) (k : nat) : list byte * option ioerr * Reader :=
  if decide (length (s r) ≤ i r)%nat then ([], Some io_EOF, r)
  else
    let b := take k (drop (i r) (s r)) in
    (b, None, {| s := s r; i := (i r + length b)%nat |}).

(** [Reader.Seek(off, io.SeekStart)] for a non-negative offset. *)
Definition Reader_Seek (r : Reader) (off : Z) : Reader :=
  {| s := s r; i := Z.to_nat off |}.

(** [io.ReadFull(r, buf)] with [len(buf) = k], as [binary.Read] calls it:
    with [k = 0] the loop of [io.ReadAtLeast] does not run; otherwise the
    first [Read] of a [bytes.Reader] delivers everything that is left (up to
    [k]) and a short count ends in [io.EOF] or [io.ErrUnexpectedEOF]. *)
Definition ReadFull (r : Reader) (k : nat) : option (list byte * Reader) :=
  if decide (k = 0%nat) then Some ([], r)
  else
    let '(b, _, r') := Reader_Read r k in
    if decide (length b = k) then Some (b, r') else None.

(** [bytes.IndexByte(l, 0)]. *)
Fixpoint IndexByte0 (l : list byte) : option nat :=
  match l with
  | [] => None
  | b :: l' => if decide (b = x00) then Some 0%nat else S <$> IndexByte0 l'
  end.

(** [bufio.NewReader(r).ReadBytes('\x00')]: the bytes up to and including the
    first zero byte at or after the cursor; an error when the source ends
    first.  The buffered reader reads ahead, which is why [New] seeks back
    afterwards; only the returned bytes matter here. *)
Definition ReadBytes0 (r : Reader) : option (list byte) :=
  let rest := drop (i r) (s r) in
  n ← IndexByte0 rest; Some (take (S n) rest).

(** ** Cabinet and New *)

(** [nextRdr] is a pointer to the [bytes.Reader] that [folderData] returned
    last; readers handed out by [Next] point to the same object, so the
    readers live in a store (a list indexed by location) and [nextRdr] holds
    a location. *)
Definition loc : Type := nat.

Record Cabinet : Type := {
  r       : list byte;       (* the contents of the io.ReadSeeker *)
  hdr     : cfHeader;
  fldrs   : list cfFolder;
  files   : list file;
  nextIdx : nat;
  nextRdr : option loc       (* nil, or the reader of the current folder *)
}.

Definition MSCF : list byte := String.list_byte_of_string "MSCF".

(** The CFFOLDER loop of [New]: [n] records remain, the next has index [i]. *)
Fixpoint readFolders (rd : Reader) (n : nat) (i : Z) (acc : list cfFolder)
  : outcome (list cfFolder * Reader) :=
  match n with
  | O => Ok (acc, rd)
  | S n' =>
    match ReadFull rd sizeof_cfFolder with
    | None => Err (TruncatedFolder i)
    | Some (b, rd') =>
      let fldr := decode_cfFolder b in
      let tag := Z.land (TypeCompress fldr) compMask in
      if decide (tag = compNone) then readFolders rd' n' (i + 1) (acc ++ [fldr])
      else if decide (tag = compMSZIP) then readFolders rd' n' (i + 1) (acc ++ [fldr])
      else Err (UnsupportedAlgorithm (TypeCompress fldr))
    end
  end.

(** The CFFILE loop of [New]. *)
Fixpoint readFiles (rd : Reader) (n : nat) (i : Z) (acc : list file)
  : outcome (list file) :=
  match n with
  | O => Ok acc
  | S n' =>
    match ReadFull rd sizeof_cfFile with
    | None => Err (TruncatedFile i)
    | Some (b, rd') =>
      let off := cabfile.i rd' in                    (* r.Seek(0, io.SeekCurrent) *)
      match ReadBytes0 rd' with
      | None => Err (TruncatedName i)
      | Some fn =>
        let rd'' := Reader_Seek rd' (Z.of_nat off + Z.of_nat (length fn)) in
        let f := {| entry := decode_cfFile b;
                    name := String.string_of_list_byte (take (length fn - 1) fn) |} in
        readFiles rd'' n' (i + 1) (acc ++ [f])
      end
    end
  end.

(** The sanity checks of the header, in the order of the code. *)
Definition checkHeader (h : cfHeader) : outcome unit :=
  if decide (Signature h ≠ MSCF) then Err BadSignature
  else if decide (Reserved1 h ≠ 0 ∨ Reserved2 h ≠ 0 ∨ Reserved3 h ≠ 0)
       then Err ReservedFieldViolation
  else if decide (VersionMajor h ≠ 1 ∨ VersionMinor h ≠ 3)
       then Err (UnsupportedVersion (VersionMajor h) (VersionMinor h))
  else if decide (Z.land (Flags h) hdrPrevCabinet ≠ 0 ∨ Z.land (Flags h) hdrNextCabinet ≠ 0)
       then Err UnsupportedMultiPart
  else Ok tt.

Definition New (src : list byte) : outcome Cabinet :=
  let rd := Reader_Seek (NewReader src) 0 in
  match ReadFull rd sizeof_cfHeader with
  | None => Err TruncatedHeader
  | Some (b, rd1) =>
    let h := decode_cfHeader b in
    _ ← checkHeader h;
    '(fs, rd2) ← readFolders rd1 (Z.to_nat (CFolders h)) 0 [];
    fl ← readFiles (Reader_Seek rd2 (COFFFiles h)) (Z.to_nat (CFiles h)) 0 [];
    Ok {| r := src; hdr := h; fldrs := fs; files := fl;
          nextIdx := 0; nextRdr := None |}
  end.

(** [FileList]. *)
Definition FileList (c : Cabinet) : list string := name <$> files c.

(** ** Folder decompression *)

Definition CK : list byte := String.list_byte_of_string "CK".

Section Decoder.

(** compress/flate is a library outside the repository.  What [folderData]
    uses of it is one call: [flate_Read dict stream k] stands for the first
    [Read], into a buffer of [k] bytes, of
    [flate.NewReaderDict(bytes.NewReader(stream), dict)]; it gives the bytes
    written to the buffer (their number is Go's [n]) and the error. *)
Variable flate_Read : list byte → list byte → nat → list byte * option ioerr.

(** [flate.NewReader(r)] is [flate.NewReaderDict(r, nil)]: the library
    initialises the window of both with the given dictionary. *)
Definition flate_NewReader_Read (stream : list byte) (k : nat)
  : list byte * option ioerr := flate_Read [] stream k.

(** The CFDATA loop of [folderData]: [n] blocks remain, the next has index
    [i]; [history] and [buf] are the two variables of the Go loop. *)
Fixpoint dataBlocks (fldr : cfFolder) (rd : Reader) (n : nat) (i : Z)
    (history buf : list byte) : outcome (list byte) :=
  match n with
  | O => Ok buf
  | S n' =>
    match ReadFull rd sizeof_cfData with
    | None => Err (TruncatedBlockHeader i)
    | Some (b, rd1) =>
      let d := decode_cfData b in
      let '(block, err, rd2) := Reader_Read rd1 (Z.to_nat (CBData d)) in
      if decide (Z.of_nat (length block) ≠ CBData d)
      then Err (TruncatedBlock (Z.of_nat (length block)) i (CBData d))
      else if decide (err ≠ None) then Err (BlockReadError i)
      else if decide (TypeCompress fldr = compNone) then
        if decide (CBData d ≠ CBUncomp d)
        then Err (SizeMismatch (CBData d) i (CBUncomp d))
        else dataBlocks fldr rd2 n' (i + 1) history (buf ++ block)
      else if decide (TypeCompress fldr = compMSZIP) then
        (* block[:2] and block[2:] need cap(block) = len(block) >= 2 *)
        if decide (length block < 2)%nat then Panic
        else if decide (take 2 block ≠ CK) then Err (BadBlockSignature i)
        else
          let k := Z.to_nat (CBUncomp d) in
          let '(data, derr) :=
            if decide (length history = 0%nat)
            then flate_NewReader_Read (drop 2 block) k
            else flate_Read history (drop 2 block) k in
          if decide (Z.of_nat (length data) ≠ CBUncomp d)
          then Err (DecompressionFailure (Z.of_nat (length data)) i (CBUncomp d))
          else if decide (derr ≠ None ∧ derr ≠ Some io_EOF)
          then Err (DecompressionError i)
          else dataBlocks fldr rd2 n' (i + 1) data (buf ++ data)
      else Err UnsupportedCompression
    end
  end.

(** What the loop does with a block once the source has delivered it: the
    [switch] of the loop body, with the history already chosen. *)
Definition afterRead (fldr : cfFolder) (d : cfData) (payload : list byte)
    (rd2 : Reader) (n : nat) (i : Z) (history buf : list byte)
  : outcome (list byte) :=
  if decide (TypeCompress fldr = compNone) then
    if decide (CBData d ≠ CBUncomp d)
    then Err (SizeMismatch (CBData d) i (CBUncomp d))
    else dataBlocks fldr rd2 n (i + 1) history (buf ++ payload)
  else if decide (TypeCompress fldr = compMSZIP) then
    if decide (length payload < 2)%nat then Panic
    else if decide (take 2 payload ≠ CK) then Err (BadBlockSignature i)
    else
      let '(data, derr) := flate_Read history (drop 2 payload) (Z.to_nat (CBUncomp d)) in
      if decide (Z.of_nat (length data) ≠ CBUncomp d)
      then Err (DecompressionFailure (Z.of_nat (length data)) i (CBUncomp d))
      else if decide (derr ≠ None ∧ derr ≠ Some io_EOF)
      then Err (DecompressionError i)
      else dataBlocks fldr rd2 n (i + 1) data (buf ++ data)
  else Err UnsupportedCompression.

(** [folderData]: the result is [bytes.NewReader(buf.Bytes())]. *)
Definition folderData (c : Cabinet) (idx : Z) : outcome Reader :=
  if decide (Z.of_nat (length (fldrs c)) ≤ idx) then Err FolderIndexOutOfRange
  else
    match fldrs c !! Z.to_nat idx with
    | None => Err FolderIndexOutOfRange
    | Some fldr =>
      let rd := Reader_Seek (NewReader (r c)) (COFFCabStart fldr) in
      buf ← dataBlocks fldr rd (Z.to_nat (CCFData fldr)) 0 [] [];
      Ok (NewReader buf)
    end.

(** ** Content *)

(** The body of the loop of [Content] once a name has matched. *)
Definition contentOf (c : Cabinet) (f : file) : outcome Reader :=
  match folderData c (IFolder (entry f)) with
  | Panic => Panic
  | Err e => Err (FolderError (IFolder (entry f)) e)
  | Ok data =>
    let data1 := Reader_Seek data (UOffFolderStart (entry f)) in
    let '(blob, err, _) := Reader_Read data1 (Z.to_nat (CBFile (entry f))) in
    if decide (Z.of_nat (length blob) ≠ CBFile (entry f))
    then Err (OffsetOutOfRange (Z.of_nat (length blob)) (CBFile (entry f)))
    else match err with
         | Some e => Err (FileReadError e)
         | None => Ok (NewReader blob)
         end
  end.

(** The [for _, f := range c.files] loop of [Content]. *)
Fixpoint contentLoop (c : Cabinet) (fs : list file) (nm : string) : outcome Reader :=
  match fs with
  | [] => Err (FileNotFound nm)
  | f :: fs' =>
    if decide (name f ≠ nm) then contentLoop c fs' nm
    else contentOf c f
  end.

Definition Content (c : Cabinet) (nm : string) : outcome Reader :=
  contentLoop c (files c) nm.

(** ** Next *)

(** [io.LimitedReader]: [R] points to the underlying reader, [N] bytes remain. *)
Record LimitedReader : Type := {
  R : loc;
  N : Z
}.

(** The arguments that [Next] passes to [time.Date]. *)
Record modTime : Type := {
  year : Z; month : Z; day : Z; hour : Z; min : Z; sec : Z
}.

Record fileStat : Type := {
  fs_name    : string;
  fs_size    : Z;
  fs_modTime : modTime
}.

(** What lies outside the [Cabinet] value: the store of the readers that
    [folderData] allocated, and the log of the folder indices [folderData]
    was called with (oldest first). *)
Record world : Type := {
  heap  : list Reader;
  calls : list Z
}.

Definition emptyWorld : world := {| heap := []; calls := [] |}.

Definition unpackTime (f : cfFile) : modTime := {|
  year  := Z.shiftr (Date f) 9 + 1980;
  month := Z.land (Z.shiftr (Date f) 5) 15;
  day   := Z.land (Date f) 31;
  hour  := Z.shiftr (Time f) 11;
  min   := Z.land (Z.shiftr (Time f) 5) 63;
  sec   := Z.shiftl (Z.land (Time f) 31) 1
|}.

(** [c.files[c.nextIdx-1].IFolder != f.IFolder], guarded by [c.nextIdx == 0]. *)
Definition newFolder (c : Cabinet) (f : file) : bool :=
  if decide (nextIdx c = 0%nat) then true
  else match files c !! (nextIdx c - 1)%nat with
       | Some p => bool_decide (IFolder (entry p) ≠ IFolder (entry f))
       | None => true
       end.

Definition statOf (f : file) : fileStat :=
  {| fs_name := name f; fs_size := CBFile (entry f);
     fs_modTime := unpackTime (entry f) |}.

(** [c.nextRdr = data], with [data] stored at location [l]. *)
Definition setReader (c : Cabinet) (l : loc) : Cabinet :=
  {| r := r c; hdr := hdr c; fldrs := fldrs c; files := files c;
     nextIdx := nextIdx c; nextRdr := Some l |}.

(** [c.nextIdx++]. *)
Definition advance (c : Cabinet) : Cabinet :=
  {| r := r c; hdr := hdr c; fldrs := fldrs c; files := files c;
     nextIdx := (nextIdx c + 1)%nat; nextRdr := nextRdr c |}.

(** A call of [folderData] is entered in the log. *)
Definition logCall (w : world) (idx : Z) : world :=
  {| heap := heap w; calls := calls w ++ [idx] |}.

(** [bytes.NewReader] allocates a reader. *)
Definition alloc (w : world) (rd : Reader) : world :=
  {| heap := heap w ++ [rd]; calls := calls w |}.

(** The reader at [l] is replaced by [rd] (its cursor has moved). *)
Definition store (w : world) (l : loc) (rd : Reader) : world :=
  {| heap := <[l := rd]> (heap w); calls := calls w |}.

Definition Next (c : Cabinet) (w : world)
  : outcome (LimitedReader * fileStat) * Cabinet * world :=
  if decide (length (files c) ≤ nextIdx c)%nat then (Err EndOfSequence, c, w)
  else
    match files c !! nextIdx c with
    | None => (Err EndOfSequence, c, w)
    | Some f =>
      (* the case when a new folder has to be opened *)
      let '(opened, c1, w1) :=
        if newFolder c f then
          match folderData c (IFolder (entry f)) with
          | Panic => (Panic, c, logCall w (IFolder (entry f)))
          | Err e => (Err (FolderError (IFolder (entry f)) e), c,
                      logCall w (IFolder (entry f)))
          | Ok data =>
            (Ok tt, setReader c (length (heap w)),
             alloc (logCall w (IFolder (entry f))) data)
          end
        else (Ok tt, c, w) in
      match opened with
      | Panic => (Panic, c1, w1)
      | Err e => (Err e, c1, w1)
      | Ok _ =>
        match nextRdr c1 with
        | None => (Panic, c1, w1)          (* Seek on a nil interface *)
        | Some l =>
          match heap w1 !! l with
          | None => (Panic, c1, w1)
          | Some rd =>
            (Ok ({| R := l; N := CBFile (entry f) |}, statOf f),
             advance c1,
             store w1 l (Reader_Seek rd (UOffFolderStart (entry f))))
          end
        end
      end
    end.

(** [(l *LimitedReader) Read(p)] with [len(p) = k]. *)
Definition LimitedReader_Read (l : LimitedReader) (k : nat) (w : world)
  : list byte * option ioerr * LimitedReader * world :=
  if decide (N l ≤ 0) then ([], Some io_EOF, l, w)
  else
    let k' := if decide (Z.of_nat k > N l) then Z.to_nat (N l) else k in
    match heap w !! R l with
    | None => ([], Some io_Other, l, w)
    | Some rd =>
      let '(b, err, rd') := Reader_Read rd k' in
      (b, err, {| R := R l; N := N l - Z.of_nat (length b) |}, store w (R l) rd')
    end.

(** The client loop of the package's example: call [Next] until it returns
    an error, collecting what it returned.  [fuel] bounds the number of
    calls. *)
Fixpoint walk (fuel : nat) (c : Cabinet) (w : world)
  : list (LimitedReader * fileStat) * option (outcome unit) * Cabinet * world :=
  match fuel with
  | O => ([], None, c, w)
  | S fuel' =>
    match Next c w with
    | (Ok x, c', w') =>
      let '(xs, stop, c'', w'') := walk fuel' c' w' in (x :: xs, stop, c'', w'')
    | (Err e, c', w') => ([], Some (Err e), c', w')
    | (Panic, c', w') => ([], Some Panic, c', w')
    end
  end.

End Decoder.

End cabfile.

(** ** Structured versions *)

Module semver.

(** The interface of the third-party package github.com/blang/semver that
    lvfscab uses: a version type, [Make] (which fails on strings that are not
    structured versions) and the three-way [Compare]. *)
Class Lib : Type := {
  Version : Type;
  Make    : string → option Version;
  Compare : Version → Version → Z
}.

Record version3 : Type := {
  Major : N;
  Minor : N;
  Patch : N
}.

(** [strings.Split(s, sep)] on the characters of [s]. *)
Fixpoint splitOn (sep : ascii) (l : list ascii) : list (list ascii) :=
  match l with
  | [] => [[]]
  | c :: l' =>
    if decide (c = sep) then [] :: splitOn sep l'
    else match splitOn sep l' with
         | [] => [[c]]
         | w :: ws => (c :: w) :: ws
         end
  end.

Definition digit (c : ascii) : option N :=
  let n := Ascii.N_of_ascii c in
  if decide (48 ≤ n ∧ n ≤ 57)%N then Some (n - 48)%N else None.

(** The value of a decimal numeral read left to right from [acc]. *)
Fixpoint decimal (acc : N) (l : list ascii) : option N :=
  match l with
  | [] => Some acc
  | c :: l' => d ← digit c; decimal (10 * acc + d)%N l'
  end.

Definition number (l : list ascii) : option N :=
  match l with
  | [] => None
  | _ => decimal 0 l
  end.

(** Modelled from the spec: the parser of the package blang/semver, which is
    not part of the repository.  It accepts a three-component
    "major.minor.patch" string of decimal numbers. *)
Definition parse3 (v : string) : option version3 :=
  match splitOn "."%char (String.list_ascii_of_string v) with
  | [a; b; c] =>
    ma ← number a; mi ← number b; pa ← number c;
    Some {| Major := ma; Minor := mi; Patch := pa |}
  | _ => None
  end.

(** The strict order of structured versions: lexicographic on
    (major, minor, patch). *)
Definition before (a b : version3) : Prop :=
  (Major a < Major b)%N ∨
  (Major a = Major b ∧
   ((Minor a < Minor b)%N ∨ (Minor a = Minor b ∧ (Patch a < Patch b)%N))).

Definition sign (c : comparison) : Z :=
  match c with
  | Lt => -1
  | Eq => 0
  | Gt => 1
  end.

(** Modelled from the spec: the comparison of the package blang/semver,
    component-wise numeric, left to right. *)
Definition compare3 (v o : version3) : Z :=
  if decide (Major v ≠ Major o) then sign (Major v ?= Major o)%N
  else if decide (Minor v ≠ Minor o) then sign (Minor v ?= Minor o)%N
  else sign (Patch v ?= Patch o)%N.

#[global] Instance spec_lib : Lib :=
  {| Version := version3; Make := parse3; Compare := compare3 |}.

End semver.

(** * Package lvfscab *)

Module lvfscab.

(** The order [a < b] of Go strings: byte-wise lexicographic. *)
Fixpoint bytes_lt (a b : list ascii) : bool :=
  match a, b with
  | _, [] => false
  | [], _ :: _ => true
  | x :: a', y :: b' =>
    if decide (Ascii.N_of_ascii x < Ascii.N_of_ascii y)%N then true
    else if decide (Ascii.N_of_ascii y < Ascii.N_of_ascii x)%N then false
    else bytes_lt a' b'
  end.

(** [strings.Compare]. *)
Definition strings_Compare (a b : string) : Z :=
  if decide (a = b) then 0
  else if bytes_lt (String.list_ascii_of_string a) (String.list_ascii_of_string b) then -1
  else 1.

(** [CompareVersions]. *)
Definition CompareVersions `{semver.Lib} (v1 v2 : string) : Z :=
  match semver.Make v1, semver.Make v2 with
  | Some s1, Some s2 => semver.Compare s1 s2
  | _, _ => strings_Compare v1 v2
  end.

End lvfscab.

(** * The vocabulary of the specification *)

Module spec.
Import cabfile.

(** The byte range [[off, off+size)] of a buffer. *)
Definition slice (buf : list byte) (off size : Z) : list byte :=
  take (Z.to_nat size) (drop (Z.to_nat off) buf).

(** [f] is the first entry of the file table named [nm]. *)
Definition firstMatch (fs : list file) (nm : string) (f : file) : Prop :=
  ∃ pre post, fs = pre ++ f :: post ∧ name f = nm ∧ Forall (λ g, name g ≠ nm) pre.

(** The sizes, offsets and folder indices of file entries are unsigned. *)
Definition unsignedEntry (f : file) : Prop :=
  0 ≤ CBFile (entry f) ∧ 0 ≤ UOffFolderStart (entry f) ∧ 0 ≤ IFolder (entry f).

(** The data blocks that start at the cursor of [rd]: each is a CFDATA
    header followed by a payload of exactly [CBData] bytes that the source
    delivers; [rd'] is the source after the last of them. *)
Inductive blocksAt : Reader → list (cfData * list byte) → Reader → Prop :=
| blocksAt_nil rd : blocksAt rd [] rd
| blocksAt_cons rd b rd1 payload rd2 blks rd3 :
    ReadFull rd sizeof_cfData = Some (b, rd1) →
    Reader_Read rd1 (Z.to_nat (CBData (decode_cfData b))) = (payload, None, rd2) →
    Z.of_nat (length payload) = CBData (decode_cfData b) →
    blocksAt rd2 blks rd3 →
    blocksAt rd ((decode_cfData b, payload) :: blks) rd3.

(** The source positioned at the first data block of a folder. *)
Definition folderStart (c : Cabinet) (fldr : cfFolder) : Reader :=
  {| s := r c; i := Z.to_nat (COFFCabStart fldr) |}.

(** A block of a stored folder is well formed when its two counts agree. *)
Definition countsAgree (blk : cfData * list byte) : Prop :=
  CBData blk.1 = CBUncomp blk.1.

(** The MS-ZIP rule of the specification, block by block: the payload is the
    signature followed by a deflate stream; decoding the stream with the
    dictionary [dict] (one [Read] of the decoder [flate] into a buffer of
    [CBUncomp] bytes) yields exactly [CBUncomp] bytes and no error other than
    the end of the stream; these bytes are the dictionary of the next block. *)
Inductive mszipChain (flate : list byte → list byte → nat → list byte * option ioerr)
  : list byte → list (cfData * list byte) → list (list byte) → Prop :=
| mszipChain_nil dict : mszipChain flate dict [] []
| mszipChain_cons dict d stream data err blks outs :
    flate dict stream (Z.to_nat (CBUncomp d)) = (data, err) →
    Z.of_nat (length data) = CBUncomp d →
    err = None ∨ err = Some io_EOF →
    mszipChain flate data blks outs →
    mszipChain flate dict ((d, CK ++ stream) :: blks) (data :: outs).

(** The dictionary in force after the blocks that produced [outs], starting
    from [dict]: the output of the last block. *)
Definition dictAfter (dict : list byte) (outs : list (list byte)) : list byte :=
  default dict (last outs).

(** Index [i] is a folder transition: [i = 0], or the folder index of file
    [i] differs from that of file [i - 1]. *)
Definition transitionAt (fs : list file) (i : nat) : Prop :=
  i = 0%nat ∨ (IFolder ∘ entry) <$> fs !! (i - 1)%nat ≠ (IFolder ∘ entry) <$> fs !! i.

#[global] Instance transitionAt_dec fs i : Decision (transitionAt fs i).
Proof. unfold transitionAt. apply _. Defined.


(** The cached reader of an iterator is coherent when, once a file has been
    returned, [nextRdr] points to a reader over the decompressed folder of
    the file returned last. *)
Definition cacheCoherent (flate : list byte → list byte → nat → list byte * option ioerr)
    (c : Cabinet) (w : world) : Prop :=
  nextIdx c ≠ 0%nat →
  ∃ p l rd, files c !! (nextIdx c - 1)%nat = Some p ∧
            nextRdr c = Some l ∧ heap w !! l = Some rd ∧
            folderData flate c (IFolder (entry p)) = Ok (NewReader (s rd)).

End spec.

(** * Archives used in the examples *)

Module fixtures.
Import cabfile.

Definition byte_of_Z (z : Z) : byte := default x00 (Byte.of_N (Z.to_N (z `mod` 256))).
Definition le16 (z : Z) : list byte := [byte_of_Z z; byte_of_Z (z ≫ 8)].
Definition le32 (z : Z) : list byte :=
  [byte_of_Z z; byte_of_Z (z ≫ 8); byte_of_Z (z ≫ 16); byte_of_Z (z ≫ 24)].
Definition text (t : string) : list byte := String.list_byte_of_string t.

(** A CFHEADER with the given signature, version, counts, file-table offset
    and flags; the reserved fields, the size, the set id and the cabinet
    number are zero. *)
Definition header (sig : string) (major minor cfolders cfiles coffFiles flags : Z)
  : list byte :=
  text sig ++ le32 0 ++ le32 0 ++ le32 0 ++ le32 coffFiles ++ le32 0
  ++ [byte_of_Z minor; byte_of_Z major]
  ++ le16 cfolders ++ le16 cfiles ++ le16 flags ++ le16 0 ++ le16 0.

Definition folderRec (start nblocks tc : Z) : list byte :=
  le32 start ++ le16 nblocks ++ le16 tc.

Definition fileRec (size off ifolder : Z) (nm : string) : list byte :=
  le32 size ++ le32 off ++ le16 ifolder ++ le16 0 ++ le16 0 ++ le16 0
  ++ text nm ++ [x00].

Definition dataBlock (uncomp : Z) (payload : list byte) : list byte :=
  le32 0 ++ le16 (Z.of_nat (length payload)) ++ le16 uncomp ++ payload.

(** The folder records of folders given as (compression type, encoded data
    blocks), the first of which starts at [start]. *)
Fixpoint folderRecs (start : Z) (fs : list (Z * list (list byte))) : list byte :=
  match fs with
  | [] => []
  | (tc, blocks) :: fs' =>
    folderRec start (Z.of_nat (length blocks)) tc
    ++ folderRecs (start + Z.of_nat (length (concat blocks))) fs'
  end.

(** An archive with the given header flags: header, folder table, file
    table, data blocks. *)
Definition archiveWith (flags : Z) (fs : list (Z * list (list byte)))
    (fileRecs : list (list byte)) : list byte :=
  let coffFiles := 36 + 8 * Z.of_nat (length fs) in
  let dataStart := coffFiles + Z.of_nat (length (concat fileRecs)) in
  header "MSCF" 1 3 (Z.of_nat (length fs)) (Z.of_nat (length fileRecs)) coffFiles flags
  ++ folderRecs dataStart fs
  ++ concat fileRecs
  ++ concat (concat (snd <$> fs)).

(** A single-part version 1.3 archive. *)
Definition archive (fs : list (Z * list (list byte))) (fileRecs : list (list byte))
  : list byte := archiveWith 0 fs fileRecs.

(** The cabinet that [New] returns for an archive it accepts. *)
Definition cabinetOf (src : list byte) : Cabinet :=
  match New src with
  | Ok c => c
  | _ => {| r := src; hdr := decode_cfHeader []; fldrs := []; files := [];
            nextIdx := 0; nextRdr := None |}
  end.

(** One stored folder of two blocks, "abc" and "de"; the last file is empty
    and sits at the end of the folder. *)
Definition stored_cab : list byte :=
  archive [(compNone, [dataBlock 3 (text "abc"); dataBlock 2 (text "de")])]
          [fileRec 3 0 0 "a.txt"; fileRec 2 3 0 "b.txt"; fileRec 0 5 0 "empty"].

(** The same archive with the next-cabinet flag set in the header. *)
Definition multipart_cab : list byte :=
  archiveWith hdrNextCabinet
          [(compNone, [dataBlock 3 (text "abc"); dataBlock 2 (text "de")])]
          [fileRec 3 0 0 "a.txt"; fileRec 2 3 0 "b.txt"; fileRec 0 5 0 "empty"].

(** Two stored folders; files 0 and 1 lie in folder 0 and overlap, file 2
    lies in folder 1; two files are named "dup". *)
Definition two_folder_cab : list byte :=
  archive [(compNone, [dataBlock 3 (text "abc")]);
           (compNone, [dataBlock 5 (text "xyz12")])]
          [fileRec 2 0 0 "dup"; fileRec 2 1 0 "b"; fileRec 5 0 1 "dup"].

(** A stored folder whose second block declares 3 uncompressed bytes for a
    payload of 2. *)
Definition mismatch_cab : list byte :=
  archive [(compNone, [dataBlock 3 (text "abc"); dataBlock 3 (text "de")])]
          [fileRec 3 0 0 "a.txt"].

(** A folder whose compression field is 0x0010: the low four bits say "none",
    a higher bit is set. *)
Definition highbits_cab : list byte :=
  archive [(16, [dataBlock 3 (text "abc")])] [fileRec 3 0 0 "a.txt"].

(** An MS-ZIP folder whose only block has the one-byte payload "C". *)
Definition short_block_cab : list byte :=
  archive [(compMSZIP, [dataBlock 3 (text "C")])] [fileRec 3 0 0 "a.txt"].

(** An MS-ZIP folder whose only block starts with "XY" instead of "CK". *)
Definition bad_signature_cab : list byte :=
  archive [(compMSZIP, [dataBlock 3 (text "XYabc")])] [fileRec 3 0 0 "a.txt"].

(** A stand-in for compress/flate to run the decoder on small inputs.  A
    stream "L" ++ bytes produces the bytes; a stream "D" ++ bytes produces the
    dictionary followed by the bytes.  Like the library it fills at most [k]
    bytes, and reports [io.EOF] with the last bytes of the stream. *)
Definition toy_flate (dict stream : list byte) (k : nat) : list byte * option ioerr :=
  match stream with
  | t :: rest =>
    if decide (t = "L"%byte) then
      (take k rest, if decide (length rest ≤ k)%nat then Some io_EOF else None)
    else if decide (t = "D"%byte) then
      (take k (dict ++ rest),
       if decide (length (dict ++ rest) ≤ k)%nat then Some io_EOF else None)
    else ([], Some io_Other)
  | [] => ([], Some io_ErrUnexpectedEOF)
  end.

(** An MS-ZIP folder of three blocks for [toy_flate]: "ab", then the
    dictionary followed by "c", then the dictionary followed by "d". *)
Definition mszip_cab : list byte :=
  archive [(compMSZIP, [dataBlock 2 (text "CKLab");
                        dataBlock 3 (text "CKDc");
                        dataBlock 4 (text "CKDd")])]
          [fileRec 9 0 0 "all.bin"].

(** The same folder, but the second block declares 4 bytes and yields 3. *)
Definition mszip_short_cab : list byte :=
  archive [(compMSZIP, [dataBlock 2 (text "CKLab");
                        dataBlock 4 (text "CKDc")])]
          [fileRec 6 0 0 "all.bin"].

End fixtures.


(** * The byte layout of the two tables *)

Module layout.
Import cabfile.

(** The CFFOLDER record number [j] of an archive: the eight bytes at offset
    [36 + 8 j]. *)
Definition folderAt (src : list byte) (j : nat) : cfFolder :=
  decode_cfFolder (take sizeof_cfFolder (drop (sizeof_cfHeader + sizeof_cfFolder * j) src)).

(** The low four bits of a compression field name a supported scheme. *)
Definition supportedTag (fldr : cfFolder) : Prop :=
  Z.land (TypeCompress fldr) compMask = compNone ∨
  Z.land (TypeCompress fldr) compMask = compMSZIP.

(** The length of the name that starts at offset [pos]: the number of bytes
    before the first zero byte (0 when there is none). *)
Definition nameLength (src : list byte) (pos : nat) : nat :=
  default 0%nat (IndexByte0 (drop pos src)).

(** The CFFILE record at offset [pos]: sixteen bytes, then the name up to the
    zero byte. *)
Definition fileAt (src : list byte) (pos : nat) : file :=
  {| entry := decode_cfFile (take sizeof_cfFile (drop pos src));
     name := String.string_of_list_byte
               (take (nameLength src (pos + sizeof_cfFile))
                     (drop (pos + sizeof_cfFile) src)) |}.

(** The offset of record [j] of a file table that starts at [start]: each
    record is followed by its name and the zero byte. *)
Fixpoint filePos (src : list byte) (start : nat) (j : nat) : nat :=
  match j with
  | O => start
  | S j' =>
    filePos src (start + sizeof_cfFile + nameLength src (start + sizeof_cfFile) + 1) j'
  end.

(** The number of source bytes that a list of data blocks occupies, and the
    number of bytes they declare to decompress to. *)
Definition framedSize (blks : list (cfData * list byte)) : nat :=
  sum_list_with (λ blk, sizeof_cfData + Z.to_nat (CBData blk.1))%nat blks.

Definition declaredSize (blks : list (cfData * list byte)) : nat :=
  sum_list_with (λ blk, Z.to_nat (CBUncomp blk.1)) blks.

End layout.

(** * Package lvfscab: New *)

Module lvfsmeta.
Import cabfile.

Record release : Type := {
  rel_Version : string            (* xml:"version,attr" *)
}.

Record component : Type := {
  comp_ID      : string;          (* xml:"id" *)
  comp_Release : list release     (* xml:"releases>release" *)
}.

Record LVFSCabinet : Type := {
  Cabinet_ : Cabinet;             (* the embedded *cabfile.Cabinet *)
  ID       : string;
  Version  : string
}.

(** One constructor per error site of [New] in lvfscab.go. *)
Inductive error : Type :=
| CabinetError (e : cabfile.error)  (* the error of cabfile.New, returned as is *)
| NoMetadata                        (* "LVFS cabinet does not contain required metadata" *)
| ContentError (mdfn : string) (e : cabfile.error)
                                    (* "could not get content of metadata file %q: %v" *)
| ParseError (mdfn : string)        (* "could not parse metadata file %q: %v" *)
| NoComponentID (mdfn : string)     (* "could not determine component ID from metadata file %q" *)
| NoRelease (mdfn : string).        (* "could not extract release information from metadata file %q" *)

Inductive result (A : Type) : Type :=
| Done (a : A)
| Fail (e : error)
| Crash.                            (* a panic of cabfile propagates *)
Arguments Done {A} a.
Arguments Fail {A} e.
Arguments Crash {A}.

(** [strings.HasSuffix]: [len(s) >= len(suffix) && s[len(s)-len(suffix):] == suffix]. *)
Definition HasSuffix (s suffix : string) : bool :=
  let a := String.list_ascii_of_string s in
  let b := String.list_ascii_of_string suffix in
  bool_decide ((length b ≤ length a)%nat ∧ drop (length a - length b) a = b).

Definition metainfoSuffix : string := ".metainfo.xml".

(** The loop of [New] over [cab.FileList()]: the first name with the suffix,
    or the empty string that [mdfn] starts with. *)
Fixpoint findMetadata (names : list string) : string :=
  match names with
  | [] => ""
  | fn :: rest => if HasSuffix fn metainfoSuffix then fn else findMetadata rest
  end.

Section New.

Variable flate : list byte → list byte → nat → list byte * option ioerr.

(** encoding/xml is a library outside the repository: [xml_Unmarshal b]
    stands for [xml.Unmarshal(b, &c)] on a zero [component]; [None] is an
    error. *)
Variable xml_Unmarshal : list byte → option component.

(** [io.Copy(&mdbuf, mdr)] on a [bytes.Reader]: the bytes from its cursor on. *)
Definition readAll (rd : Reader) : list byte := drop (i rd) (s rd).

Definition New (src : list byte) : result LVFSCabinet :=
  match cabfile.New src with
  | Panic => Crash
  | Err e => Fail (CabinetError e)
  | Ok cab =>
    let mdfn := findMetadata (FileList cab) in
    if decide (mdfn = "") then Fail NoMetadata
    else
      match Content flate cab mdfn with
      | Panic => Crash
      | Err e => Fail (ContentError mdfn e)
      | Ok mdr =>
        match xml_Unmarshal (readAll mdr) with
        | None => Fail (ParseError mdfn)
        | Some c =>
          if decide (comp_ID c = "") then Fail (NoComponentID mdfn)
          else
            match comp_Release c with
            | [] => Fail (NoRelease mdfn)
            | rel :: _ =>
              if decide (rel_Version rel = "") then Fail (NoRelease mdfn)
              else Done {| Cabinet_ := cab; ID := comp_ID c;
                           Version := rel_Version rel |}
            end
        end
      end
  end.

End New.

End lvfsmeta.

(** * An LVFS archive for the examples *)

Module lvfs_fixtures.
Import cabfile fixtures lvfsmeta.

(** A stored folder "hello1.2.6"; the file table lists a readme and two
    metadata files, of which the first is used. *)
Definition lvfs_cab : list byte :=
  archive [(compNone, [dataBlock 10 (text "hello1.2.6")])]
          [fileRec 5 0 0 "README"; fileRec 5 5 0 "fw.metainfo.xml";
           fileRec 5 0 0 "old.metainfo.xml"].

(** A stand-in for encoding/xml: the document is the version of the only
    release of the component "org.foo.bar"; the empty document is an error. *)
Definition toy_xml (b : list byte) : option component :=
  match b with
  | [] => None
  | _ => Some {| comp_ID := "org.foo.bar";
                 comp_Release := [{| rel_Version := String.string_of_list_byte b |}] |}
  end.

(** An archive whose file entry names folder 7 of a one-folder archive. *)
Definition bad_folder_cab : list byte :=
  archive [(compNone, [dataBlock 3 (text "abc")])] [fileRec 3 0 7 "a.txt"].

(** An archive whose only folder has the compression field 3 (LZX). *)
Definition lzx_cab : list byte :=
  archive [(compLZX, [dataBlock 3 (text "abc")])] [fileRec 3 0 0 "a.txt"].

End lvfs_fixtures.

(* ================================================================== *)
(** * Part II: properties *)
(* ================================================================== *)

Import cabfile spec fixtures.

(** ** The byte source *)

Lemma Reader_Read_bytes rd k :
  (Reader_Read rd k).1.1 = take k (drop (i rd) (s rd)).
Proof.
  unfold Reader_Read. case_decide; [|done]. simpl.
  by rewrite drop_ge, take_nil.
Qed.

Lemma Reader_Read_source rd k : s (Reader_Read rd k).2 = s rd.
Proof. unfold Reader_Read. by case_decide. Qed.

Lemma Reader_Read_cursor rd k :
  i (Reader_Read rd k).2 = (i rd + length (Reader_Read rd k).1.1)%nat.
Proof. unfold Reader_Read. case_decide; simpl; lia. Qed.

Lemma ReadFull_enough rd k :
  (i rd + k ≤ length (s rd))%nat → (0 < k)%nat →
  ReadFull rd k = Some (take k (drop (i rd) (s rd)),
                        {| s := s rd; i := (i rd + k)%nat |}).
Proof.
  intros Hle Hk. unfold ReadFull, Reader_Read.
  case_decide; [lia|]. case_decide; [lia|].
  assert (length (take k (drop (i rd) (s rd))) = k) as Hlen.
  { rewrite length_take, length_drop. lia. }
  rewrite Hlen. case_decide; [done|lia].
Qed.

(** ** New: the sanity checks of the header *)

Lemma checkHeader_Ok h :
  checkHeader h = Ok tt ↔
  Signature h = MSCF ∧
  (Reserved1 h = 0 ∧ Reserved2 h = 0 ∧ Reserved3 h = 0) ∧
  (VersionMajor h = 1 ∧ VersionMinor h = 3) ∧
  (Z.land (Flags h) hdrPrevCabinet = 0 ∧ Z.land (Flags h) hdrNextCabinet = 0).
Proof.
  unfold checkHeader.
  destruct (decide (Signature h = MSCF)) as [Hs|Hs].
  2: { rewrite decide_True by done. split; [done|tauto]. }
  rewrite decide_False by tauto.
  case_decide as H1; [split; [done|lia]|].
  case_decide as H2; [split; [done|lia]|].
  case_decide as H3; [split; [done|lia]|].
  split; [|done]. intros _. repeat split; try done; lia.
Qed.

Lemma checkHeader_total h : checkHeader h = Ok tt ∨ ∃ e, checkHeader h = Err e.
Proof. unfold checkHeader. repeat case_decide; eauto. Qed.

Lemma New_header_read src :
  (sizeof_cfHeader ≤ length src)%nat →
  ReadFull (Reader_Seek (NewReader src) 0) sizeof_cfHeader
  = Some (take sizeof_cfHeader src, {| s := src; i := sizeof_cfHeader |}).
Proof.
  intros Hlen.
  rewrite (ReadFull_enough (Reader_Seek (NewReader src) 0) sizeof_cfHeader);
    simpl; [done|lia|unfold sizeof_cfHeader; lia].
Qed.

(** C3.  When the header is readable (the source has at least 36 bytes), the
    folder loop succeeds on the records that follow it (so every record is
    present and its low-4-bit compression tag is supported) and the file loop
    succeeds at the declared offset, [New] returns an error if and only if
    the signature is not "MSCF", or the version is not 1.3, or a reserved
    field is not zero, or the previous-cabinet or next-cabinet flag is set. *)
Theorem New_rejects_iff (src : list byte) (fs : list cfFolder) (rd2 : Reader)
    (fl : list file) :
  let h := decode_cfHeader (take sizeof_cfHeader src) in
  let rd1 := {| s := src; i := sizeof_cfHeader |} in
  (sizeof_cfHeader ≤ length src)%nat →
  readFolders rd1 (Z.to_nat (CFolders h)) 0 [] = Ok (fs, rd2) →
  readFiles (Reader_Seek rd2 (COFFFiles h)) (Z.to_nat (CFiles h)) 0 [] = Ok fl →
  (∃ e, New src = Err e) ↔
  (Signature h ≠ MSCF ∨
   (VersionMajor h ≠ 1 ∨ VersionMinor h ≠ 3) ∨
   (Reserved1 h ≠ 0 ∨ Reserved2 h ≠ 0 ∨ Reserved3 h ≠ 0) ∨
   (Z.land (Flags h) hdrPrevCabinet ≠ 0 ∨ Z.land (Flags h) hdrNextCabinet ≠ 0)).
Proof.
  intros h rd1 Hlen Hfolders Hfiles.
  unfold New. rewrite New_header_read by done. fold h. fold rd1.
  destruct (checkHeader_total h) as [Hok | [e He]].
  - rewrite Hok. cbn [mbind outcome_bind]. rewrite Hfolders.
    cbn [mbind outcome_bind]. rewrite Hfiles. cbn [mbind outcome_bind].
    apply checkHeader_Ok in Hok. split.
    + intros [e [=]].
    + intros Hbad. exfalso. destruct Hok as (? & (? & ? & ?) & (? & ?) & ? & ?).
      tauto.
  - rewrite He. cbn [mbind outcome_bind]. split; [|by eauto]. intros _.
    destruct (decide (Signature h = MSCF)); [|by left].
    destruct (decide (VersionMajor h = 1)); [|by right; left; left].
    destruct (decide (VersionMinor h = 3)); [|by right; left; right].
    destruct (decide (Reserved1 h = 0)); [|by right; right; left; left].
    destruct (decide (Reserved2 h = 0)); [|by right; right; left; right; left].
    destruct (decide (Reserved3 h = 0)); [|by right; right; left; right; right].
    destruct (decide (Z.land (Flags h) hdrPrevCabinet = 0));
      [|by right; right; right; left].
    destruct (decide (Z.land (Flags h) hdrNextCabinet = 0));
      [|by right; right; right; right].
    assert (checkHeader h = Ok tt) as Hok by (apply checkHeader_Ok; done).
    congruence.
Qed.

(** ** folderData: the block loop *)

Section FolderData.

Variable flate : list byte → list byte → nat → list byte * option ioerr.

Lemma flate_history (history stream : list byte) (k : nat) :
  (if decide (length history = 0%nat)
   then flate_NewReader_Read flate stream k
   else flate history stream k) = flate history stream k.
Proof.
  case_decide as Hh; [|done]. unfold flate_NewReader_Read.
  by destruct history.
Qed.

Lemma dataBlocks_read fldr rd b rd1 payload rd2 n i history buf :
  ReadFull rd sizeof_cfData = Some (b, rd1) →
  Reader_Read rd1 (Z.to_nat (CBData (decode_cfData b))) = (payload, None, rd2) →
  Z.of_nat (length payload) = CBData (decode_cfData b) →
  dataBlocks flate fldr rd (S n) i history buf
  = afterRead flate fldr (decode_cfData b) payload rd2 n i history buf.
Proof.
  intros Hhdr Hrd Hlen. cbn [dataBlocks]. rewrite Hhdr, Hrd.
  rewrite decide_False by (intros ?; done).
  rewrite decide_False by (intros ?; done).
  unfold afterRead. rewrite flate_history. done.
Qed.

Lemma dataBlocks_Ok_inv fldr rd n i history buf out :
  dataBlocks flate fldr rd (S n) i history buf = Ok out →
  ∃ b rd1 payload rd2,
    ReadFull rd sizeof_cfData = Some (b, rd1) ∧
    Reader_Read rd1 (Z.to_nat (CBData (decode_cfData b))) = (payload, None, rd2) ∧
    Z.of_nat (length payload) = CBData (decode_cfData b) ∧
    afterRead flate fldr (decode_cfData b) payload rd2 n i history buf = Ok out.
Proof.
  intros Hok. cbn [dataBlocks] in Hok.
  destruct (ReadFull rd sizeof_cfData) as [[b rd1]|] eqn:Hhdr; [|done].
  destruct (Reader_Read rd1 _) as [[payload err] rd2] eqn:Hrd.
  destruct (decide (Z.of_nat (length payload) ≠ _)) as [|Hlen]; [done|].
  destruct (decide (err ≠ None)) as [|Herr]; [done|].
  apply dec_stable in Hlen, Herr. subst err.
  exists b, rd1, payload, rd2. repeat split; try done.
  unfold afterRead. rewrite <- (flate_history history). done.
Qed.

(** *** Stored folders *)

Lemma dataBlocks_none_Ok fldr rd blks rd' :
  TypeCompress fldr = compNone →
  blocksAt rd blks rd' → Forall countsAgree blks →
  ∀ i history buf,
    dataBlocks flate fldr rd (length blks) i history buf
    = Ok (buf ++ concat (snd <$> blks)).
Proof.
  intros Hnone Hblks. induction Hblks as [rd|rd b rd1 payload rd2 blks rd3 Hh Hr Hl _ IH];
    intros Hagree i history buf.
  - simpl. by rewrite app_nil_r.
  - apply Forall_cons in Hagree as [Hd Hrest].
    cbn [length]. rewrite (dataBlocks_read _ _ _ _ _ _ _ _ _ _ Hh Hr Hl).
    unfold afterRead. rewrite decide_True by done.
    rewrite decide_False by (intros Hne; apply Hne, Hd).
    rewrite IH by done. simpl. by rewrite app_assoc.
Qed.

Lemma dataBlocks_none_inv fldr :
  TypeCompress fldr = compNone →
  ∀ n rd i history buf out,
    dataBlocks flate fldr rd n i history buf = Ok out →
    ∃ blks rd', blocksAt rd blks rd' ∧ length blks = n ∧
                Forall countsAgree blks ∧ out = buf ++ concat (snd <$> blks).
Proof.
  intros Hnone. induction n as [|n IH]; intros rd i history buf out Hok.
  - injection Hok as <-. exists [], rd. repeat split; try constructor.
    simpl. by rewrite app_nil_r.
  - apply dataBlocks_Ok_inv in Hok as (b & rd1 & payload & rd2 & Hh & Hr & Hl & Hok).
    unfold afterRead in Hok. rewrite decide_True in Hok by done.
    destruct (decide (CBData _ ≠ _)) as [|Hd]; [done|]. apply dec_stable in Hd.
    apply IH in Hok as (blks & rd' & Hblks & Hlen & Hagree & ->).
    exists ((decode_cfData b, payload) :: blks), rd'. repeat split.
    + by econstructor.
    + simpl. by rewrite Hlen.
    + by constructor.
    + simpl. by rewrite app_assoc.
Qed.

Lemma blocksAt_cons_inv rd blk blks rd3 :
  blocksAt rd (blk :: blks) rd3 →
  ∃ b rd1 rd2,
    blk = (decode_cfData b, blk.2) ∧
    ReadFull rd sizeof_cfData = Some (b, rd1) ∧
    Reader_Read rd1 (Z.to_nat (CBData (decode_cfData b))) = (blk.2, None, rd2) ∧
    Z.of_nat (length blk.2) = CBData (decode_cfData b) ∧
    blocksAt rd2 blks rd3.
Proof. inversion 1; subst. eauto 10. Qed.

Lemma dataBlocks_none_mismatch fldr :
  TypeCompress fldr = compNone →
  ∀ pre rd blk rd' n i history buf,
    blocksAt rd (pre ++ [blk]) rd' → Forall countsAgree pre → ¬ countsAgree blk →
    (length pre < n)%nat →
    dataBlocks flate fldr rd n i history buf
    = Err (SizeMismatch (CBData blk.1) (i + Z.of_nat (length pre)) (CBUncomp blk.1)).
Proof.
  intros Hnone. induction pre as [|p pre IH];
    intros rd blk rd' n i history buf Hblks Hagree Hbad Hn;
    (destruct n as [|n]; [simpl in Hn; lia|]);
    apply blocksAt_cons_inv in Hblks as (b & rd1 & rd2 & Heq & Hh & Hr & Hl & Hrest);
    rewrite (dataBlocks_read _ _ _ _ _ _ _ _ _ _ Hh Hr Hl);
    unfold afterRead; rewrite decide_True by done.
  - rewrite Heq in Hbad |- *. unfold countsAgree in Hbad. simpl in *.
    rewrite decide_True by done. do 2 f_equal. lia.
  - apply Forall_cons in Hagree as [Hp Hagree].
    rewrite Heq in Hp. unfold countsAgree in Hp. simpl in Hp.
    rewrite decide_False by (intros Hne; apply Hne, Hp).
    rewrite (IH _ _ _ _ _ _ _ Hrest) by (try done; simpl in Hn; lia).
    do 2 f_equal. simpl. lia.
Qed.

(** *** MS-ZIP folders *)

Lemma CK_payload stream :
  ¬ (length (CK ++ stream) < 2)%nat ∧ take 2 (CK ++ stream) = CK ∧
  drop 2 (CK ++ stream) = stream.
Proof. split; [simpl; lia|done]. Qed.

Lemma dataBlocks_mszip_step fldr rd blk rd3 blks n i history buf :
  TypeCompress fldr = compMSZIP →
  blocksAt rd (blk :: blks) rd3 →
  ∀ stream, blk.2 = CK ++ stream →
  ∃ rd2, blocksAt rd2 blks rd3 ∧
    dataBlocks flate fldr rd (S n) i history buf =
    let '(data, derr) := flate history stream (Z.to_nat (CBUncomp blk.1)) in
    if decide (Z.of_nat (length data) ≠ CBUncomp blk.1)
    then Err (DecompressionFailure (Z.of_nat (length data)) i (CBUncomp blk.1))
    else if decide (derr ≠ None ∧ derr ≠ Some io_EOF)
    then Err (DecompressionError i)
    else dataBlocks flate fldr rd2 n (i + 1) data (buf ++ data).
Proof.
  intros Hzip Hblks stream Hpay.
  apply blocksAt_cons_inv in Hblks as (b & rd1 & rd2 & Heq & Hh & Hr & Hl & Hrest).
  exists rd2. split; [done|].
  rewrite (dataBlocks_read _ _ _ _ _ _ _ _ _ _ Hh Hr Hl). unfold afterRead.
  rewrite decide_False by (rewrite Hzip; done).
  rewrite decide_True by done.
  destruct (CK_payload stream) as (Hlen & Htake & Hdrop).
  rewrite Hpay. rewrite decide_False by done.
  rewrite decide_False by (intros Hne; apply Hne, Htake).
  rewrite Hdrop. rewrite Heq. done.
Qed.

Lemma dataBlocks_mszip_Ok fldr :
  TypeCompress fldr = compMSZIP →
  ∀ blks rd rd' history outs i buf,
    blocksAt rd blks rd' → mszipChain flate history blks outs →
    dataBlocks flate fldr rd (length blks) i history buf = Ok (buf ++ concat outs).
Proof.
  intros Hzip. induction blks as [|blk blks IH];
    intros rd rd' history outs i buf Hblks Hchain.
  - inversion Hchain; subst. simpl. by rewrite app_nil_r.
  - inversion Hchain as [|? d stream data err ? outs' Hfl Hlen Herr Hrest]; subst.
    cbn [length].
    destruct (dataBlocks_mszip_step fldr rd _ rd' blks (length blks) i history buf
                Hzip Hblks stream eq_refl) as (rd2 & Hblks' & ->).
    simpl. rewrite Hfl.
    rewrite decide_False by (intros Hne; apply Hne, Hlen).
    rewrite decide_False by (intros [? ?]; destruct Herr; done).
    rewrite (IH _ _ _ _ _ _ Hblks' Hrest). simpl. by rewrite app_assoc.
Qed.

Lemma dataBlocks_mszip_inv fldr :
  TypeCompress fldr = compMSZIP →
  ∀ n rd i history buf out,
    dataBlocks flate fldr rd n i history buf = Ok out →
    ∃ blks rd' outs, blocksAt rd blks rd' ∧ length blks = n ∧
                     mszipChain flate history blks outs ∧ out = buf ++ concat outs.
Proof.
  intros Hzip. induction n as [|n IH]; intros rd i history buf out Hok.
  - injection Hok as <-. exists [], rd, []. repeat split; try constructor.
    simpl. by rewrite app_nil_r.
  - apply dataBlocks_Ok_inv in Hok as (b & rd1 & payload & rd2 & Hh & Hr & Hl & Hok).
    unfold afterRead in Hok.
    rewrite decide_False in Hok by (rewrite Hzip; done).
    rewrite decide_True in Hok by done.
    destruct (decide (length payload < 2)%nat) as [|Hlen]; [done|].
    destruct (decide (take 2 payload ≠ CK)) as [|Hsig]; [done|].
    apply dec_stable in Hsig.
    destruct (flate history (drop 2 payload) _) as [data derr] eqn:Hfl.
    destruct (decide (Z.of_nat (length data) ≠ _)) as [|Hcnt]; [done|].
    apply dec_stable in Hcnt.
    destruct (decide (derr ≠ None ∧ derr ≠ Some io_EOF)) as [|Herr]; [done|].
    apply IH in Hok as (blks & rd' & outs & Hblks & Hn & Hchain & ->).
    assert (payload = CK ++ drop 2 payload) as Hpay
      by (rewrite <- Hsig; symmetry; apply take_drop).
    exists ((decode_cfData b, payload) :: blks), rd', (data :: outs). repeat split.
    + by econstructor.
    + simpl. by rewrite Hn.
    + rewrite Hpay at 1. econstructor; try done.
      destruct (decide (derr = None)); [by left|].
      destruct (decide (derr = Some io_EOF)); [by right|]. tauto.
    + simpl. by rewrite app_assoc.
Qed.

Lemma dataBlocks_mszip_count fldr :
  TypeCompress fldr = compMSZIP →
  ∀ pre rd rd' history outs d stream data err n i buf,
    blocksAt rd (pre ++ [(d, CK ++ stream)]) rd' →
    mszipChain flate history pre outs →
    flate (dictAfter history outs) stream (Z.to_nat (CBUncomp d)) = (data, err) →
    Z.of_nat (length data) ≠ CBUncomp d →
    (length pre < n)%nat →
    dataBlocks flate fldr rd n i history buf
    = Err (DecompressionFailure (Z.of_nat (length data)) (i + Z.of_nat (length pre))
                                (CBUncomp d)).
Proof.
  intros Hzip. induction pre as [|p pre IH];
    intros rd rd' history outs d stream data err n i buf Hblks Hchain Hfl Hcnt Hn;
    (destruct n as [|n]; [simpl in Hn; lia|]).
  - inversion Hchain; subst. unfold dictAfter in Hfl. simpl in Hfl.
    destruct (dataBlocks_mszip_step fldr rd _ rd' [] n i history buf
                Hzip Hblks stream eq_refl) as (rd2 & _ & ->).
    simpl. rewrite Hfl. rewrite decide_True by done. do 2 f_equal. lia.
  - inversion Hchain as [|? d0 s0 data0 e0 ? outs' Hfl0 Hlen0 He0 Hrest]; subst.
    destruct (dataBlocks_mszip_step fldr rd _ rd' _ n i history buf
                Hzip Hblks s0 eq_refl) as (rd2 & Hblks' & ->).
    simpl. rewrite Hfl0.
    rewrite decide_False by (intros Hne; apply Hne, Hlen0).
    rewrite decide_False by (intros [? ?]; destruct He0; done).
    assert (flate (dictAfter data0 outs') stream (Z.to_nat (CBUncomp d)) = (data, err))
      as Hfl'.
    { unfold dictAfter in *. rewrite last_cons in Hfl. by destruct (last outs'). }
    rewrite (IH _ _ _ _ _ _ _ _ n (i + 1) (buf ++ data0) Hblks' Hrest Hfl' Hcnt)
      by (simpl in Hn; lia).
    do 2 f_equal. simpl. lia.
Qed.

(** A payload of at least two bytes that does not start with "CK". *)
Lemma dataBlocks_mszip_signature fldr rd b rd1 payload rd2 n i history buf :
  TypeCompress fldr = compMSZIP →
  ReadFull rd sizeof_cfData = Some (b, rd1) →
  Reader_Read rd1 (Z.to_nat (CBData (decode_cfData b))) = (payload, None, rd2) →
  Z.of_nat (length payload) = CBData (decode_cfData b) →
  (2 ≤ length payload)%nat → take 2 payload ≠ CK →
  dataBlocks flate fldr rd (S n) i history buf = Err (BadBlockSignature i).
Proof.
  intros Hzip Hh Hr Hl Hlen Hsig.
  rewrite (dataBlocks_read _ _ _ _ _ _ _ _ _ _ Hh Hr Hl). unfold afterRead.
  rewrite decide_False by (rewrite Hzip; done).
  rewrite decide_True by done.
  rewrite decide_False by lia. by rewrite decide_True.
Qed.

(** A payload of fewer than two bytes: the slice expression panics. *)
Lemma dataBlocks_mszip_short_payload fldr rd b rd1 payload rd2 n i history buf :
  TypeCompress fldr = compMSZIP →
  ReadFull rd sizeof_cfData = Some (b, rd1) →
  Reader_Read rd1 (Z.to_nat (CBData (decode_cfData b))) = (payload, None, rd2) →
  Z.of_nat (length payload) = CBData (decode_cfData b) →
  (length payload < 2)%nat →
  dataBlocks flate fldr rd (S n) i history buf = Panic.
Proof.
  intros Hzip Hh Hr Hl Hlen.
  rewrite (dataBlocks_read _ _ _ _ _ _ _ _ _ _ Hh Hr Hl). unfold afterRead.
  rewrite decide_False by (rewrite Hzip; done).
  rewrite decide_True by done. by rewrite decide_True.
Qed.

(** With a compression field that is exactly "none" or MS-ZIP, the loop
    never reaches the default branch of its switch. *)
Lemma dataBlocks_supported fldr :
  TypeCompress fldr = compNone ∨ TypeCompress fldr = compMSZIP →
  ∀ n rd i history buf,
    dataBlocks flate fldr rd n i history buf ≠ Err UnsupportedCompression.
Proof.
  intros Htc. induction n as [|n IH]; intros rd i history buf; [done|].
  cbn [dataBlocks].
  destruct (ReadFull rd sizeof_cfData) as [[b rd1]|]; [|done].
  destruct (Reader_Read rd1 _) as [[block err] rd2].
  repeat (case_decide; try done); try apply IH; try (by destruct Htc).
  - destruct (flate_NewReader_Read _ _ _) as [data derr].
    repeat (case_decide; try done).
  - destruct (flate _ _ _) as [data derr].
    repeat (case_decide; try done).
Qed.

(** *** folderData *)

Lemma folderData_unfold c idx fldr :
  0 ≤ idx → fldrs c !! Z.to_nat idx = Some fldr →
  folderData flate c idx =
  (buf ← dataBlocks flate fldr (folderStart c fldr) (Z.to_nat (CCFData fldr)) 0 [] [];
   Ok (NewReader buf)).
Proof.
  intros Hidx Hlook. unfold folderData.
  apply lookup_lt_Some in Hlook as Hlt.
  rewrite decide_False by lia. by rewrite Hlook.
Qed.

Lemma folderData_Ok c idx fldr rd :
  0 ≤ idx → fldrs c !! Z.to_nat idx = Some fldr →
  folderData flate c idx = Ok rd ↔
  ∃ buf, dataBlocks flate fldr (folderStart c fldr) (Z.to_nat (CCFData fldr)) 0 [] []
         = Ok buf ∧ rd = NewReader buf.
Proof.
  intros Hidx Hlook. rewrite (folderData_unfold _ _ _ Hidx Hlook).
  destruct (dataBlocks _ _ _ _ _ _ _) as [buf| |]; cbn [mbind outcome_bind].
  - split; [intros [= <-]; eauto|]. by intros (? & [= <-] & ->).
  - split; [done|]. by intros (? & ? & ?).
  - split; [done|]. by intros (? & ? & ?).
Qed.

End FolderData.

Section Folders.

Variable flate : list byte → list byte → nat → list byte * option ioerr.

(** C5.  For a folder with compression "none": [folderData] returns a buffer
    exactly when all [CCFData] blocks can be read and the two counts of every
    block agree, and the buffer is then the concatenation of the block
    payloads in order; and when the blocks before some block have agreeing
    counts and that block has not, [folderData] fails with the size-mismatch
    error for that block. *)
Theorem folderData_stored (c : Cabinet) (idx : Z) (fldr : cfFolder) :
  0 ≤ idx → fldrs c !! Z.to_nat idx = Some fldr →
  TypeCompress fldr = compNone →
  (∀ rd, folderData flate c idx = Ok rd ↔
         ∃ blks rd', blocksAt (folderStart c fldr) blks rd' ∧
                     length blks = Z.to_nat (CCFData fldr) ∧
                     Forall countsAgree blks ∧
                     rd = NewReader (concat (snd <$> blks))) ∧
  (∀ pre blk rd',
      blocksAt (folderStart c fldr) (pre ++ [blk]) rd' →
      (length pre < Z.to_nat (CCFData fldr))%nat →
      Forall countsAgree pre → ¬ countsAgree blk →
      folderData flate c idx
      = Err (SizeMismatch (CBData blk.1) (Z.of_nat (length pre)) (CBUncomp blk.1))).
Proof.
  intros Hidx Hlook Hnone. split.
  - intros rd. rewrite (folderData_Ok flate c idx fldr rd Hidx Hlook). split.
    + intros (buf & Hok & ->).
      apply (dataBlocks_none_inv flate fldr Hnone) in Hok
        as (blks & rd' & Hblks & Hlen & Hagree & ->).
      exists blks, rd'. done.
    + intros (blks & rd' & Hblks & Hlen & Hagree & ->).
      exists (concat (snd <$> blks)). split; [|done].
      rewrite <- Hlen.
      by rewrite (dataBlocks_none_Ok flate fldr _ _ _ Hnone Hblks Hagree).
  - intros pre blk rd' Hblks Hlen Hagree Hbad.
    rewrite (folderData_unfold flate c idx fldr Hidx Hlook).
    by rewrite (dataBlocks_none_mismatch flate fldr Hnone _ _ _ _ _ 0 [] []
                  Hblks Hagree Hbad Hlen).
Qed.

(** C2.  For a folder with compression MS-ZIP: [folderData] returns a buffer
    exactly when all [CCFData] blocks can be read and decode in order under
    the MS-ZIP rule, the first with the empty dictionary and each later one
    with the output of the block before it as dictionary, every block
    yielding exactly its declared number of bytes; the buffer is then the
    concatenation of the outputs in order.  When the blocks before some
    block decode and that block yields a number of bytes different from its
    declared count, [folderData] fails with the decompression-size error for
    that block. *)
Theorem folderData_mszip (c : Cabinet) (idx : Z) (fldr : cfFolder) :
  0 ≤ idx → fldrs c !! Z.to_nat idx = Some fldr →
  TypeCompress fldr = compMSZIP →
  (∀ rd, folderData flate c idx = Ok rd ↔
         ∃ blks rd' outs, blocksAt (folderStart c fldr) blks rd' ∧
                          length blks = Z.to_nat (CCFData fldr) ∧
                          mszipChain flate [] blks outs ∧
                          rd = NewReader (concat outs)) ∧
  (∀ pre d stream rd' outs data err,
      blocksAt (folderStart c fldr) (pre ++ [(d, CK ++ stream)]) rd' →
      (length pre < Z.to_nat (CCFData fldr))%nat →
      mszipChain flate [] pre outs →
      flate (dictAfter [] outs) stream (Z.to_nat (CBUncomp d)) = (data, err) →
      Z.of_nat (length data) ≠ CBUncomp d →
      folderData flate c idx
      = Err (DecompressionFailure (Z.of_nat (length data)) (Z.of_nat (length pre))
                                  (CBUncomp d))).
Proof.
  intros Hidx Hlook Hzip. split.
  - intros rd. rewrite (folderData_Ok flate c idx fldr rd Hidx Hlook). split.
    + intros (buf & Hok & ->).
      apply (dataBlocks_mszip_inv flate fldr Hzip) in Hok
        as (blks & rd' & outs & Hblks & Hlen & Hchain & ->).
      exists blks, rd', outs. done.
    + intros (blks & rd' & outs & Hblks & Hlen & Hchain & ->).
      exists (concat outs). split; [|done]. rewrite <- Hlen.
      by rewrite (dataBlocks_mszip_Ok flate fldr Hzip _ _ _ _ _ 0 [] Hblks Hchain).
  - intros pre d stream rd' outs data err Hblks Hlen Hchain Hfl Hcnt.
    rewrite (folderData_unfold flate c idx fldr Hidx Hlook).
    by rewrite (dataBlocks_mszip_count flate fldr Hzip _ _ _ _ _ _ _ _ _ _ 0 []
                  Hblks Hchain Hfl Hcnt Hlen).
Qed.

End Folders.

(** ** Decoded integers are unsigned *)

Lemma byteZ_nonneg b : 0 ≤ byteZ b.
Proof. unfold byteZ. lia. Qed.

Lemma Uint16_nonneg b : 0 ≤ Uint16 b.
Proof.
  unfold Uint16. apply Z.lor_nonneg. split; [apply byteZ_nonneg|].
  apply Z.shiftl_nonneg, byteZ_nonneg.
Qed.

Lemma Uint32_nonneg b : 0 ≤ Uint32 b.
Proof.
  unfold Uint32. repeat (apply Z.lor_nonneg; split);
    try apply Z.shiftl_nonneg; apply byteZ_nonneg.
Qed.

Lemma readFiles_unsigned n : ∀ rd i acc fl,
  readFiles rd n i acc = Ok fl → Forall unsignedEntry acc → Forall unsignedEntry fl.
Proof.
  induction n as [|n IH]; intros rd i acc fl Hrd Hacc.
  - by injection Hrd as <-.
  - cbn [readFiles] in Hrd.
    destruct (ReadFull rd sizeof_cfFile) as [[b rd']|]; [|done].
    destruct (ReadBytes0 rd') as [fn|]; [|done].
    apply IH in Hrd; [done|]. apply Forall_app. split; [done|].
    constructor; [|done]. unfold unsignedEntry. simpl.
    auto using Uint32_nonneg, Uint16_nonneg.
Qed.

Lemma New_inv src c :
  New src = Ok c →
  r c = src ∧ nextIdx c = 0%nat ∧ nextRdr c = None ∧ Forall unsignedEntry (files c).
Proof.
  unfold New. destruct (ReadFull _ _) as [[b rd1]|]; [|done].
  destruct (checkHeader _) as [[]| |]; cbn [mbind outcome_bind]; try done.
  destruct (readFolders _ _ _ _) as [[fs rd2]| |]; cbn [mbind outcome_bind]; try done.
  destruct (readFiles _ _ _ _) as [fl| |] eqn:Hfl; cbn [mbind outcome_bind]; try done.
  intros [= <-]. simpl. repeat split.
  eapply readFiles_unsigned; [done|constructor].
Qed.

(** ** Content *)

Section ContentProperties.

Variable flate : list byte → list byte → nat → list byte * option ioerr.

Lemma contentLoop_firstMatch c fs nm f :
  firstMatch fs nm f → contentLoop flate c fs nm = contentOf flate c f.
Proof.
  intros (pre & post & -> & Hname & Hpre).
  induction Hpre as [|g pre Hg _ IH]; simpl.
  - by rewrite decide_False by (intros Hne; apply Hne, Hname).
  - by rewrite decide_True.
Qed.

Lemma contentLoop_no_match c fs nm :
  Forall (λ g, name g ≠ nm) fs → contentLoop flate c fs nm = Err (FileNotFound nm).
Proof.
  induction 1 as [|g fs Hg _ IH]; simpl; [done|]. by rewrite decide_True.
Qed.

Lemma firstMatch_or_none fs nm :
  (∃ f, firstMatch fs nm f) ∨ Forall (λ g, name g ≠ nm) fs.
Proof.
  induction fs as [|g fs [[f (pre & post & -> & Hn & Hpre)]|IH]].
  - right. constructor.
  - destruct (decide (name g = nm)) as [Hg|Hg].
    + left. exists g, [], (pre ++ f :: post). repeat split; [done|constructor].
    + left. exists f, (g :: pre), post. repeat split; [done|by constructor].
  - destruct (decide (name g = nm)) as [Hg|Hg].
    + left. exists g, [], fs. repeat split; [done|constructor].
    + right. by constructor.
Qed.

Lemma firstMatch_elem fs nm f : firstMatch fs nm f → f ∈ fs ∧ name f = nm.
Proof.
  intros (pre & post & -> & Hn & _). split; [|done].
  apply elem_of_app. right. constructor.
Qed.

Lemma contentOf_not_FileNotFound c f nm : contentOf flate c f ≠ Err (FileNotFound nm).
Proof.
  unfold contentOf. destruct (folderData _ _ _) as [data| |]; try done.
  destruct (Reader_Read _ _) as [[blob err] rd']. case_decide; [done|].
  by destruct err.
Qed.

(** The result of [Content] for a matched entry whose folder decompresses to
    [data]: the slice when the range lies in the buffer and starts before its
    end; an end-of-file error for an empty file that starts at or after the
    end; the short-read error otherwise. *)
Lemma contentOf_cases c f data :
  unsignedEntry f →
  folderData flate c (IFolder (entry f)) = Ok data →
  let off := UOffFolderStart (entry f) in
  let size := CBFile (entry f) in
  let len := Z.of_nat (length (s data)) in
  contentOf flate c f =
  if decide (off + size ≤ len ∧ off < len) then Ok (NewReader (slice (s data) off size))
  else if decide (len ≤ off ∧ size = 0) then Err (FileReadError io_EOF)
  else Err (OffsetOutOfRange (Z.of_nat (length (slice (s data) off size))) size).
Proof.
  intros (Hsize & Hoff & _) Hdata off size len. unfold contentOf. rewrite Hdata.
  unfold Reader_Read, Reader_Seek. cbn [s i]. fold off. fold size.
  assert (length (slice (s data) off size) = Z.to_nat (Z.min size (Z.max 0 (len - off))))
    as Hslice.
  { unfold slice. rewrite length_take, length_drop. subst len. lia. }
  fold (slice (s data) off size).
  destruct (decide (length (s data) ≤ Z.to_nat off)%nat) as [Hend|Hin];
    cbn [length]; rewrite ?Hslice; subst len;
    repeat case_decide; try done; try (exfalso; lia).
  do 2 f_equal. lia.
Qed.

(** C1.  For a parsed cabinet and a name: [Content] fails with the not-found
    error exactly when no entry of the file table has the name; when entries
    have the name, the first of them alone decides the result: every reader
    that [Content] returns holds exactly the byte range
    [[offset, offset+size)] of the buffer that [folderData] gives for the
    folder of that entry, all [size] bytes of it, and [Content] returns this
    reader whenever the folder decompresses and the range lies in the buffer
    and starts before its end. *)
Theorem Content_first_match_slice (src : list byte) (c : Cabinet) (nm : string) :
  New src = Ok c →
  (Content flate c nm = Err (FileNotFound nm) ↔ ∀ f, f ∈ files c → name f ≠ nm) ∧
  (∀ f, firstMatch (files c) nm f →
     let off := UOffFolderStart (entry f) in
     let size := CBFile (entry f) in
     (∀ rd, Content flate c nm = Ok rd →
            ∃ data, folderData flate c (IFolder (entry f)) = Ok data ∧
                    rd = NewReader (slice (s data) off size) ∧
                    Z.of_nat (length (s rd)) = size) ∧
     (∀ data, folderData flate c (IFolder (entry f)) = Ok data →
              off + size ≤ Z.of_nat (length (s data)) →
              off < Z.of_nat (length (s data)) →
              Content flate c nm = Ok (NewReader (slice (s data) off size)))).
Proof.
  intros Hnew. apply New_inv in Hnew as (_ & _ & _ & Hunsigned).
  unfold Content. split.
  - split.
    + intros Herr f Hf Hname.
      destruct (firstMatch_or_none (files c) nm) as [[g Hg]|Hnone].
      * rewrite (contentLoop_firstMatch c _ _ _ Hg) in Herr.
        by apply contentOf_not_FileNotFound in Herr.
      * rewrite Forall_forall in Hnone. by apply (Hnone f).
    + intros Hnone. apply contentLoop_no_match. by apply Forall_forall.
  - intros f Hf. set (off := UOffFolderStart (entry f)). set (size := CBFile (entry f)). rewrite (contentLoop_firstMatch c _ _ _ Hf).
    assert (unsignedEntry f) as Hu.
    { rewrite Forall_forall in Hunsigned. apply Hunsigned.
      by apply firstMatch_elem in Hf as [? _]. }
    split.
    + intros rd Hrd.
      destruct (folderData flate c (IFolder (entry f))) as [data| |] eqn:Hdata;
        [|by unfold contentOf in Hrd; rewrite Hdata in Hrd..].
      rewrite (contentOf_cases c f data Hu Hdata) in Hrd.
      fold off in Hrd. fold size in Hrd.
      destruct (decide (off + size ≤ _ ∧ _)) as [[Hle Hlt]|]; [|by case_decide].
      injection Hrd as <-. exists data. repeat split. cbn [s NewReader].
      unfold slice. rewrite length_take, length_drop.
      destruct Hu as (? & ? & _). subst off size. lia.
    + intros data Hdata Hle Hlt.
      rewrite (contentOf_cases c f data Hu Hdata).
      fold off. fold size. by rewrite decide_True.
Qed.

End ContentProperties.

(** ** Where the code departs from the specification *)

Section Departures.

Variable flate : list byte → list byte → nat → list byte * option ioerr.

(** For a matched entry whose folder decompresses, [Content] fails exactly
    when the range exceeds the buffer or the file is empty and starts at the
    end of the buffer. *)
Lemma Content_fails_iff (src : list byte) (c : Cabinet) (nm : string) (f : file)
    (data : Reader) :
  New src = Ok c → firstMatch (files c) nm f →
  folderData flate c (IFolder (entry f)) = Ok data →
  let off := UOffFolderStart (entry f) in
  let size := CBFile (entry f) in
  let len := Z.of_nat (length (s data)) in
  (∃ e, Content flate c nm = Err e) ↔ (len < off + size ∨ (size = 0 ∧ off = len)).
Proof.
  intros Hnew Hf Hdata off size len.
  apply New_inv in Hnew as (_ & _ & _ & Hunsigned).
  assert (unsignedEntry f) as Hu.
  { rewrite Forall_forall in Hunsigned. apply Hunsigned.
    by apply firstMatch_elem in Hf as [? _]. }
  unfold Content. rewrite (contentLoop_firstMatch flate c _ _ _ Hf).
  rewrite (contentOf_cases flate c f data Hu Hdata). fold off size len.
  destruct Hu as (? & ? & _).
  repeat case_decide; (split; [intros [e He]|intros ?; eauto]); try done; lia.
Qed.

(** C6, evaluated.  In the archive [stored_cab] the entry "empty" has size 0
    and its offset 5 is the length of its decompressed folder, so the range
    [[5, 5)] lies in the buffer; [Content] nevertheless returns the error
    "could not read file data: EOF" instead of an empty reader. *)
Theorem Content_empty_file_at_folder_end :
  ∃ c f data,
    New stored_cab = Ok c ∧ firstMatch (files c) "empty" f ∧
    folderData flate c (IFolder (entry f)) = Ok data ∧
    CBFile (entry f) = 0 ∧
    UOffFolderStart (entry f) = Z.of_nat (length (s data)) ∧
    UOffFolderStart (entry f) + CBFile (entry f) ≤ Z.of_nat (length (s data)) ∧
    Content flate c "empty" = Err (FileReadError io_EOF).
Proof.
  assert (∃ c, New stored_cab = Ok c) as [c Hc] by (vm_compute; eauto).
  exists c. pose proof Hc as Hc'. vm_compute in Hc'. injection Hc' as <-.
  eexists _, _. split; [exact Hc|]. split.
  { eexists [_; _], []. split; [reflexivity|]. split; [reflexivity|].
    repeat constructor; by vm_compute. }
  split; [vm_compute; reflexivity|]. by vm_compute.
Qed.

(** C7, evaluated.  [New] accepts the archive [highbits_cab], whose only
    folder has the compression field 0x0010 (low four bits: "none"); for this
    folder, which is in range, [folderData] takes the default branch of its
    switch and fails with "unsupported compression". *)
Theorem folderData_unmasked_compression :
  ∃ c fldr,
    New highbits_cab = Ok c ∧ fldrs c !! 0%nat = Some fldr ∧
    Z.land (TypeCompress fldr) compMask = compNone ∧
    folderData flate c 0 = Err UnsupportedCompression.
Proof.
  assert (∃ c, New highbits_cab = Ok c) as [c Hc] by (vm_compute; eauto).
  exists c. pose proof Hc as Hc'. vm_compute in Hc'. injection Hc' as <-.
  eexists. split; [exact Hc|]. split; [reflexivity|]. by vm_compute.
Qed.

(** C8, evaluated.  In the archive [short_block_cab] the only block of an
    MS-ZIP folder has the one-byte payload "C", which does not begin with the
    signature "CK"; [folderData] does not return the signature error: the
    slice expression [block[:2]] panics. *)
Theorem folderData_short_payload_panics :
  ∃ c fldr,
    New short_block_cab = Ok c ∧ fldrs c !! 0%nat = Some fldr ∧
    TypeCompress fldr = compMSZIP ∧
    folderData flate c 0 = Panic.
Proof.
  assert (∃ c, New short_block_cab = Ok c) as [c Hc] by (vm_compute; eauto).
  exists c. pose proof Hc as Hc'. vm_compute in Hc'. injection Hc' as <-.
  eexists. split; [exact Hc|]. split; [reflexivity|]. by vm_compute.
Qed.

(** A payload of two bytes or more that does not begin with "CK" gives the
    signature error, here on [bad_signature_cab]. *)
Example folderData_bad_signature :
  ∃ c, New bad_signature_cab = Ok c ∧
       folderData flate c 0 = Err (BadBlockSignature 0).
Proof.
  assert (∃ c, New bad_signature_cab = Ok c) as [c Hc] by (vm_compute; eauto).
  exists c. pose proof Hc as Hc'. vm_compute in Hc'. injection Hc' as <-.
  split; [exact Hc|]. by vm_compute.
Qed.

End Departures.

(** ** Next *)

Section Iteration.

Variable flate : list byte → list byte → nat → list byte * option ioerr.

Lemma folderData_ext c c' idx :
  r c = r c' → fldrs c = fldrs c' → folderData flate c idx = folderData flate c' idx.
Proof. unfold folderData. by intros -> ->. Qed.

Lemma folderData_NewReader c idx data :
  folderData flate c idx = Ok data → data = NewReader (s data).
Proof.
  unfold folderData. case_decide; [done|].
  destruct (fldrs c !! Z.to_nat idx); [|done].
  destruct (dataBlocks _ _ _ _ _ _ _); cbn [mbind outcome_bind]; try done.
  by intros [= <-].
Qed.


Lemma newFolder_false c f :
  files c !! nextIdx c = Some f → newFolder c f = false →
  nextIdx c ≠ 0%nat ∧
  ∃ p, files c !! (nextIdx c - 1)%nat = Some p ∧ IFolder (entry p) = IFolder (entry f).
Proof.
  intros Hf. unfold newFolder. case_decide as Hz; [done|].
  destruct (files c !! (nextIdx c - 1)%nat) as [p|] eqn:Hp; [|done].
  rewrite bool_decide_eq_false. intros Heq. apply dec_stable in Heq. eauto.
Qed.

Lemma Next_new_folder c w f data :
  files c !! nextIdx c = Some f → newFolder c f = true →
  folderData flate c (IFolder (entry f)) = Ok data →
  Next flate c w =
  (Ok ({| R := length (heap w); N := CBFile (entry f) |}, statOf f),
   advance (setReader c (length (heap w))),
   alloc (logCall w (IFolder (entry f)))
         (Reader_Seek data (UOffFolderStart (entry f)))).
Proof.
  intros Hf Hnew Hdata. unfold Next.
  apply lookup_lt_Some in Hf as Hlt. rewrite decide_False by lia.
  rewrite Hf, Hnew, Hdata. cbn [nextRdr setReader heap alloc logCall].
  rewrite lookup_app_r by lia. rewrite Nat.sub_diag. cbn [lookup list_lookup].
  unfold store, alloc, logCall. cbn [heap calls].
  rewrite insert_app_r_alt by lia. rewrite Nat.sub_diag. done.
Qed.

Lemma Next_new_folder_fails c w f :
  files c !! nextIdx c = Some f → newFolder c f = true →
  (∀ data, folderData flate c (IFolder (entry f)) ≠ Ok data) →
  ∀ x, (Next flate c w).1.1 ≠ Ok x.
Proof.
  intros Hf Hnew Hdata x. unfold Next.
  apply lookup_lt_Some in Hf as Hlt. rewrite decide_False by lia.
  rewrite Hf, Hnew.
  destruct (folderData flate c (IFolder (entry f))) as [data| |]; [|done..].
  by destruct (Hdata data).
Qed.

Lemma Next_same_folder c w f l rd :
  files c !! nextIdx c = Some f → newFolder c f = false →
  nextRdr c = Some l → heap w !! l = Some rd →
  Next flate c w =
  (Ok ({| R := l; N := CBFile (entry f) |}, statOf f),
   advance c,
   store w l (Reader_Seek rd (UOffFolderStart (entry f)))).
Proof.
  intros Hf Hnew Hl Hrd. unfold Next.
  apply lookup_lt_Some in Hf as Hlt. rewrite decide_False by lia.
  rewrite Hf, Hnew. cbv beta iota. by rewrite Hl, Hrd.
Qed.

Lemma Next_end c w :
  (length (files c) ≤ nextIdx c)%nat → Next flate c w = (Err EndOfSequence, c, w).
Proof. intros Hge. unfold Next. by rewrite decide_True. Qed.

End Iteration.

Section Walk.

Variable flate : list byte → list byte → nat → list byte * option ioerr.




End Walk.

(** ** The readers returned by Next *)

Section SharedReader.

Variable flate : list byte → list byte → nat → list byte * option ioerr.

(** The bytes that a [Read] with a buffer of [k] bytes delivers. *)
Lemma LimitedReader_Read_bytes l k w rd :
  heap w !! R l = Some rd →
  (LimitedReader_Read l k w).1.1.1
  = take k (take (Z.to_nat (N l)) (drop (i rd) (s rd))).
Proof.
  intros Hrd. unfold LimitedReader_Read. case_decide as Hn.
  - simpl. replace (Z.to_nat (N l)) with 0%nat by lia. by rewrite take_0, take_nil.
  - rewrite Hrd. pose proof (Reader_Read_bytes rd) as Hb.
    rewrite take_take. case_decide as Hk.
    + specialize (Hb (Z.to_nat (N l))).
      destruct (Reader_Read rd (Z.to_nat (N l))) as [[b e] rd']. simpl in *.
      rewrite Hb. f_equal. lia.
    + specialize (Hb k). destruct (Reader_Read rd k) as [[b e] rd']. simpl in *.
      rewrite Hb. f_equal. lia.
Qed.

(** What a successful [Next] returns and leaves behind. *)
Lemma Next_Ok_inv c w l st c' w' :
  cacheCoherent flate c w →
  Next flate c w = (Ok (l, st), c', w') →
  ∃ f data rd,
    files c !! nextIdx c = Some f ∧
    folderData flate c (IFolder (entry f)) = Ok data ∧
    l = {| R := R l; N := CBFile (entry f) |} ∧ st = statOf f ∧
    r c' = r c ∧ fldrs c' = fldrs c ∧ files c' = files c ∧
    nextIdx c' = S (nextIdx c) ∧ nextRdr c' = Some (R l) ∧
    heap w' !! R l = Some rd ∧ s rd = s data ∧
    i rd = Z.to_nat (UOffFolderStart (entry f)).
Proof.
  intros Hcoh Hnext.
  destruct (decide (length (files c) ≤ nextIdx c)%nat) as [Hend|Hin].
  { by rewrite Next_end in Hnext. }
  destruct (lookup_lt_is_Some_2 (files c) (nextIdx c)) as [f Hf]; [lia|].
  exists f. destruct (newFolder c f) eqn:Hnew.
  - destruct (folderData flate c (IFolder (entry f))) as [data| |] eqn:Hdata.
    2,3: exfalso;
         apply (Next_new_folder_fails flate c w f Hf Hnew) with (x := (l, st));
         [intros d; rewrite Hdata; done | by rewrite Hnext].
    rewrite (Next_new_folder flate c w f data Hf Hnew Hdata) in Hnext.
    injection Hnext as <- <- <- <-.
    exists data, (Reader_Seek data (UOffFolderStart (entry f))).
    cbn [R N]. repeat split; try done.
    + cbn [nextIdx advance setReader]. lia.
    + cbn [heap alloc logCall]. rewrite lookup_app_r by lia. by rewrite Nat.sub_diag.
  - destruct (newFolder_false c f Hf Hnew) as (Hnz & p & Hp & Hsame).
    destruct (Hcoh Hnz) as (p' & l0 & rd & Hp' & Hl0 & Hrd & Hdata).
    assert (p' = p) as -> by congruence. rewrite Hsame in Hdata.
    rewrite (Next_same_folder flate c w f l0 rd Hf Hnew Hl0 Hrd) in Hnext.
    injection Hnext as <- <- <- <-.
    exists (NewReader (s rd)), (Reader_Seek rd (UOffFolderStart (entry f))).
    cbn [R N]. repeat split; try done.
    + cbn [nextIdx advance]. lia.
    + cbn [heap store]. apply list_lookup_insert_eq. by eapply lookup_lt_Some.
Qed.

Lemma cacheCoherent_New src c w : New src = Ok c → cacheCoherent flate c w.
Proof. intros Hnew Hnz. by apply New_inv in Hnew as (_ & ? & _). Qed.

Lemma cacheCoherent_Next c w x c' w' :
  cacheCoherent flate c w → Next flate c w = (Ok x, c', w') →
  cacheCoherent flate c' w'.
Proof.
  intros Hcoh Hnext. destruct x as [l st].
  destruct (Next_Ok_inv c w l st c' w' Hcoh Hnext)
    as (f & data & rd & Hf & Hdata & _ & _ & Hr & Hfl & Hfs & Hidx & Hrdr & Hrd & Hs & _).
  intros _. exists f, (R l), rd. rewrite Hidx, Hfs. simpl. rewrite Nat.sub_0_r.
  repeat split; try done.
  rewrite (folderData_ext flate c' c) by done. rewrite Hs, Hdata.
  f_equal. by eapply folderData_NewReader.
Qed.

Lemma cacheCoherent_Read c w l k :
  cacheCoherent flate c w → cacheCoherent flate c (LimitedReader_Read l k w).2.
Proof.
  intros Hcoh Hnz. destruct (Hcoh Hnz) as (p & l0 & rd & Hp & Hl0 & Hrd & Hdata).
  unfold LimitedReader_Read. case_decide; [by exists p, l0, rd|].
  destruct (heap w !! R l) as [rd1|] eqn:Hrd1; [|by exists p, l0, rd].
  pose proof (Reader_Read_source rd1
                (if decide (Z.of_nat k > N l) then Z.to_nat (N l) else k)) as Hsrc.
  destruct (Reader_Read rd1 _) as [[b e] rd1']. simpl in *.
  destruct (decide (R l = l0)) as [Heq|Hne].
  - exists p, l0, rd1'. rewrite Heq in *. repeat split; try done.
    + apply list_lookup_insert_eq. by eapply lookup_lt_Some.
    + rewrite Hsrc. congruence.
  - exists p, l0, rd. repeat split; try done.
    by rewrite list_lookup_insert_ne.
Qed.

(** C10.  The cache is coherent for a fresh cabinet and stays coherent under
    [Next] and under reads of returned readers.  In a coherent state, a
    [Read] with a buffer of [k] bytes on the reader that [Next] has just
    returned delivers the first [k] bytes of the range
    [[offset, offset+size)] of the decompressed folder of the file (all of
    the range when [k] is at least the size).  The reader of the next file of
    the same folder points to the same underlying reader, and after that
    second [Next] a read on the first reader delivers bytes from the offset
    of the second file; in the archive [two_folder_cab] the first reader
    yields "ab" before the second [Next] and "bc" after it. *)
Theorem Next_reader_shares_cursor :
  (∀ src c w, New src = Ok c → cacheCoherent flate c w) ∧
  (∀ c w x c' w', cacheCoherent flate c w → Next flate c w = (Ok x, c', w') →
                  cacheCoherent flate c' w') ∧
  (∀ c w l k, cacheCoherent flate c w →
              cacheCoherent flate c (LimitedReader_Read l k w).2) ∧
  (∀ c w f l st c' w',
      cacheCoherent flate c w → files c !! nextIdx c = Some f →
      Next flate c w = (Ok (l, st), c', w') →
      ∃ data, folderData flate c (IFolder (entry f)) = Ok data ∧
              ∀ k, (LimitedReader_Read l k w').1.1.1
                   = take k (slice (s data) (UOffFolderStart (entry f))
                                   (CBFile (entry f))) ∧
                   (CBFile (entry f) ≤ Z.of_nat k →
                    (LimitedReader_Read l k w').1.1.1
                    = slice (s data) (UOffFolderStart (entry f)) (CBFile (entry f)))) ∧
  (∀ c w f1 f2 l1 st1 c1 w1 l2 st2 c2 w2,
      cacheCoherent flate c w →
      files c !! nextIdx c = Some f1 → files c !! S (nextIdx c) = Some f2 →
      IFolder (entry f1) = IFolder (entry f2) →
      Next flate c w = (Ok (l1, st1), c1, w1) →
      Next flate c1 w1 = (Ok (l2, st2), c2, w2) →
      R l2 = R l1 ∧
      ∃ data, folderData flate c (IFolder (entry f1)) = Ok data ∧
              ∀ k, (LimitedReader_Read l1 k w2).1.1.1
                   = take k (slice (s data) (UOffFolderStart (entry f2))
                                   (CBFile (entry f1)))) ∧
  (∃ c l1 st1 c1 w1 l2 st2 c2 w2,
      New two_folder_cab = Ok c ∧
      Next flate c emptyWorld = (Ok (l1, st1), c1, w1) ∧
      Next flate c1 w1 = (Ok (l2, st2), c2, w2) ∧
      (LimitedReader_Read l1 2 w1).1.1.1 = text "ab" ∧
      (LimitedReader_Read l1 2 w2).1.1.1 = text "bc").
Proof.
  split; [exact cacheCoherent_New|].
  split; [exact cacheCoherent_Next|].
  split; [exact cacheCoherent_Read|].
  split; [|split].
  - intros c w f l st c' w' Hcoh Hf Hnext.
    destruct (Next_Ok_inv c w l st c' w' Hcoh Hnext)
      as (f' & data & rd & Hf' & Hdata & Hl & _ & _ & _ & _ & _ & _ & Hrd & Hs & Hi).
    assert (f' = f) as -> by congruence.
    exists data. split; [done|]. intros k.
    rewrite (LimitedReader_Read_bytes l k w' rd Hrd).
    rewrite Hs, Hi, Hl. cbn [N]. split; [done|]. intros Hk.
    apply take_ge. unfold slice. rewrite length_take. lia.
  - intros c w f1 f2 l1 st1 c1 w1 l2 st2 c2 w2 Hcoh Hf1 Hf2 Hsame Hnext1 Hnext2.
    destruct (Next_Ok_inv c w l1 st1 c1 w1 Hcoh Hnext1)
      as (f & data & rd & Hf & Hdata & Hl1 & _ & _ & _ & Hfs & Hidx & Hrdr & Hrd & Hs & _).
    assert (f = f1) as -> by congruence.
    assert (files c1 !! nextIdx c1 = Some f2) as Hf2' by (rewrite Hfs, Hidx; done).
    assert (newFolder c1 f2 = false) as Hold.
    { unfold newFolder. rewrite Hidx, Hfs. rewrite decide_False by done.
      simpl. rewrite Nat.sub_0_r, Hf1. by apply bool_decide_eq_false_2; intros []. }
    rewrite (Next_same_folder flate c1 w1 f2 (R l1) rd Hf2' Hold Hrdr Hrd) in Hnext2.
    injection Hnext2 as <- <- <- <-. split; [done|].
    exists data. split; [done|]. intros k.
    rewrite (LimitedReader_Read_bytes l1 k _
               (Reader_Seek rd (UOffFolderStart (entry f2)))).
    + cbn [s i Reader_Seek]. rewrite Hs, Hl1. done.
    + cbn [heap store]. apply list_lookup_insert_eq. by eapply lookup_lt_Some.
  - assert (∃ c, New two_folder_cab = Ok c) as [c Hc] by (vm_compute; eauto).
    exists c. pose proof Hc as Hc'. vm_compute in Hc'. injection Hc' as <-.
    eexists _, _, _, _, _, _, _, _. split; [exact Hc|].
    split; [vm_compute; reflexivity|]. split; [vm_compute; reflexivity|].
    split; by vm_compute.
Qed.

End SharedReader.

(** ** CompareVersions *)

Import semver lvfscab.

Lemma strings_Compare_range a b :
  strings_Compare a b = -1 ∨ strings_Compare a b = 0 ∨ strings_Compare a b = 1.
Proof.
  unfold strings_Compare. case_decide; [auto|]. destruct (bytes_lt _ _); auto.
Qed.

Lemma compare3_cases a b :
  (compare3 a b = -1 ↔ before a b) ∧
  (compare3 a b = 0 ↔ Major a = Major b ∧ Minor a = Minor b ∧ Patch a = Patch b) ∧
  (compare3 a b = 1 ↔ before b a).
Proof.
  unfold compare3, before.
  destruct (N.compare_spec (Major a) (Major b));
    destruct (N.compare_spec (Minor a) (Minor b));
    destruct (N.compare_spec (Patch a) (Patch b));
    repeat case_decide; simpl; try lia.
Qed.

(** For any implementation of the interface: both inputs parse, or the
    strings are compared. *)
Lemma CompareVersions_dispatch (L : Lib) (v1 v2 : string) :
  (∀ s1 s2, Make v1 = Some s1 → Make v2 = Some s2 →
            CompareVersions v1 v2 = Compare s1 s2) ∧
  (Make v1 = None ∨ Make v2 = None → CompareVersions v1 v2 = strings_Compare v1 v2).
Proof.
  unfold CompareVersions. split.
  - by intros s1 s2 -> ->.
  - intros [->| ->]; [done|]. by destruct (Make v1).
Qed.

(** C9.  With the structured versions of the specification: when both
    strings parse as three-component versions, [CompareVersions] orders them
    component-wise, numerically, left to right; otherwise it returns the
    byte-wise lexicographic comparison of the strings; the result is always
    -1, 0 or 1; and the five examples of the specification hold. *)
Theorem CompareVersions_spec :
  (∀ v1 v2 : string,
     (∀ s1 s2, parse3 v1 = Some s1 → parse3 v2 = Some s2 →
        (CompareVersions v1 v2 = -1 ↔ before s1 s2) ∧
        (CompareVersions v1 v2 = 0 ↔
           Major s1 = Major s2 ∧ Minor s1 = Minor s2 ∧ Patch s1 = Patch s2) ∧
        (CompareVersions v1 v2 = 1 ↔ before s2 s1)) ∧
     (parse3 v1 = None ∨ parse3 v2 = None →
        CompareVersions v1 v2 = strings_Compare v1 v2) ∧
     (CompareVersions v1 v2 = -1 ∨ CompareVersions v1 v2 = 0 ∨
      CompareVersions v1 v2 = 1)) ∧
  CompareVersions "1.0.0" "1.0.1" = -1 ∧
  CompareVersions "1.0.0" "1.0.0" = 0 ∧
  CompareVersions "123" "100" = 1 ∧
  CompareVersions "12" "9" = -1 ∧
  CompareVersions "RQR12.07_B0030" "RQR12.07_B0029" = 1.
Proof.
  split; [|by vm_compute].
  intros v1 v2. destruct (CompareVersions_dispatch spec_lib v1 v2) as [Hboth Hnot].
  split; [|split].
  - intros s1 s2 H1 H2. rewrite (Hboth s1 s2 H1 H2). apply compare3_cases.
  - exact Hnot.
  - destruct (parse3 v1) as [s1|] eqn:H1; [|rewrite Hnot by auto; apply strings_Compare_range].
    destruct (parse3 v2) as [s2|] eqn:H2; [|rewrite Hnot by auto; apply strings_Compare_range].
    rewrite (Hboth s1 s2 H1 H2).
    unfold Compare, spec_lib, compare3.
    repeat case_decide; destruct (_ ?= _)%N; simpl; auto.
Qed.

(* ================================================================== *)
(** * Part III: the theorems at concrete archives *)
(* ================================================================== *)

Lemma New_rejects_iff_witness :
  (∃ e, New multipart_cab = Err e) ↔
  (let h := decode_cfHeader (take sizeof_cfHeader multipart_cab) in
   Signature h ≠ MSCF ∨
   (VersionMajor h ≠ 1 ∨ VersionMinor h ≠ 3) ∨
   (Reserved1 h ≠ 0 ∨ Reserved2 h ≠ 0 ∨ Reserved3 h ≠ 0) ∨
   (Z.land (Flags h) hdrPrevCabinet ≠ 0 ∨ Z.land (Flags h) hdrNextCabinet ≠ 0)).
Proof.
  eapply (New_rejects_iff multipart_cab).
  - vm_compute. lia.
  - vm_compute. reflexivity.
  - vm_compute. reflexivity.
Defined.

Lemma folderData_stored_witness :
  (∃ blks rd',
      blocksAt (folderStart (cabinetOf stored_cab)
                            {| COFFCabStart := 110; CCFData := 2; TypeCompress := 0 |})
               blks rd' ∧
      length blks = 2%nat ∧ Forall countsAgree blks ∧
      NewReader (text "abcde") = NewReader (concat (snd <$> blks))) ∧
  folderData toy_flate (cabinetOf mismatch_cab) 0 = Err (SizeMismatch 2 1 3).
Proof.
  split.
  - apply (proj1 (folderData_stored toy_flate (cabinetOf stored_cab) 0
                    {| COFFCabStart := 110; CCFData := 2; TypeCompress := 0 |}
                    ltac:(lia) eq_refl eq_refl)).
    vm_compute. reflexivity.
  - eapply (proj2 (folderData_stored toy_flate (cabinetOf mismatch_cab) 0
                     {| COFFCabStart := 66; CCFData := 2; TypeCompress := 0 |}
                     ltac:(lia) eq_refl eq_refl)
                  [(decode_cfData (take 8 (dataBlock 3 (text "abc"))), text "abc")]
                  (decode_cfData (take 8 (dataBlock 3 (text "de"))), text "de")).
    + cbn [app].
      eapply blocksAt_cons; [vm_compute; reflexivity..|].
      eapply blocksAt_cons; [vm_compute; reflexivity..|].
      apply blocksAt_nil.
    + vm_compute. lia.
    + constructor; [reflexivity|constructor].
    + vm_compute. discriminate.
Defined.

Lemma folderData_mszip_witness :
  (∃ blks rd' outs,
      blocksAt (folderStart (cabinetOf mszip_cab)
                            {| COFFCabStart := 68; CCFData := 3; TypeCompress := 1 |})
               blks rd' ∧
      length blks = 3%nat ∧ mszipChain toy_flate [] blks outs ∧
      NewReader (text "ababcabcd") = NewReader (concat outs)) ∧
  folderData toy_flate (cabinetOf mszip_short_cab) 0
  = Err (DecompressionFailure 3 1 4).
Proof.
  split.
  - apply (proj1 (folderData_mszip toy_flate (cabinetOf mszip_cab) 0
                    {| COFFCabStart := 68; CCFData := 3; TypeCompress := 1 |}
                    ltac:(lia) eq_refl eq_refl)).
    vm_compute. reflexivity.
  - eapply (proj2 (folderData_mszip toy_flate (cabinetOf mszip_short_cab) 0
                     {| COFFCabStart := 68; CCFData := 2; TypeCompress := 1 |}
                     ltac:(lia) eq_refl eq_refl)
                  [(decode_cfData (take 8 (dataBlock 2 (text "CKLab"))), text "CKLab")]
                  (decode_cfData (take 8 (dataBlock 4 (text "CKDc"))))
                  (text "Dc") _ [text "ab"] (text "abc") (Some io_EOF)).
    + cbn [app].
      eapply blocksAt_cons; [vm_compute; reflexivity..|].
      eapply blocksAt_cons; [vm_compute; reflexivity..|].
      apply blocksAt_nil.
    + vm_compute. lia.
    + eapply (mszipChain_cons toy_flate [] _ (text "Lab") (text "ab") (Some io_EOF));
        [reflexivity|reflexivity|by right|constructor].
    + reflexivity.
    + vm_compute. discriminate.
Defined.

Lemma Content_first_match_slice_witness :
  Content toy_flate (cabinetOf two_folder_cab) "dup"
  = Ok (NewReader (slice (text "abc") 0 2)).
Proof.
  destruct (Content_first_match_slice toy_flate two_folder_cab
              (cabinetOf two_folder_cab) "dup" eq_refl) as [_ Hmatch].
  destruct (Hmatch {| entry := {| CBFile := 2; UOffFolderStart := 0; IFolder := 0;
                                  Date := 0; Time := 0; Attribs := 0 |};
                      name := "dup" |}) as [_ Hslice].
  - eexists [], _. split; [reflexivity|]. split; [reflexivity|]. constructor.
  - apply (Hslice (NewReader (text "abc"))).
    + vm_compute. reflexivity.
    + vm_compute. discriminate.
    + vm_compute. reflexivity.
Defined.


Lemma Next_reader_shares_cursor_witness :
  ∃ data,
    folderData toy_flate (cabinetOf two_folder_cab) 0 = Ok data ∧
    ∀ k, (LimitedReader_Read {| R := 0%nat; N := 2 |} k
            {| heap := [NewReader (text "abc")]; calls := [0] |}).1.1.1
         = take k (slice (s data) 0 2) ∧
         (2 ≤ Z.of_nat k →
          (LimitedReader_Read {| R := 0%nat; N := 2 |} k
             {| heap := [NewReader (text "abc")]; calls := [0] |}).1.1.1
          = slice (s data) 0 2).
Proof.
  destruct (Next_reader_shares_cursor toy_flate) as (Hnew & _ & _ & Hread & _).
  apply (Hread (cabinetOf two_folder_cab) emptyWorld
               {| entry := {| CBFile := 2; UOffFolderStart := 0; IFolder := 0;
                              Date := 0; Time := 0; Attribs := 0 |};
                  name := "dup" |}
               {| R := 0%nat; N := 2 |}
               (statOf {| entry := {| CBFile := 2; UOffFolderStart := 0; IFolder := 0;
                                      Date := 0; Time := 0; Attribs := 0 |};
                          name := "dup" |})
               (advance (setReader (cabinetOf two_folder_cab) 0%nat))).
  - apply (Hnew two_folder_cab). reflexivity.
  - reflexivity.
  - vm_compute. reflexivity.
Defined.

Lemma CompareVersions_spec_witness :
  lvfscab.CompareVersions "1.2.3" "1.10.0" = -1 ↔
  semver.before {| semver.Major := 1; semver.Minor := 2; semver.Patch := 3 |}
                {| semver.Major := 1; semver.Minor := 10; semver.Patch := 0 |}.
Proof.
  destruct CompareVersions_spec as [Hall _].
  destruct (Hall "1.2.3" "1.10.0") as [Hboth _].
  destruct (Hboth {| semver.Major := 1; semver.Minor := 2; semver.Patch := 3 |}
                  {| semver.Major := 1; semver.Minor := 10; semver.Patch := 0 |}
                  eq_refl eq_refl) as [Hlt _].
  exact Hlt.
Defined.

(* ================================================================== *)
(** * Part IV: further properties of the code *)
(* ================================================================== *)

Import layout lvfs_fixtures.

(** ** New: errors and the parsed tables *)

Lemma ReadFull_inv rd k b rd' :
  ReadFull rd k = Some (b, rd') →
  b = take k (drop (i rd) (s rd)) ∧ length b = k ∧
  s rd' = s rd ∧ i rd' = (i rd + k)%nat ∧
  (k ≠ 0%nat → (i rd + k ≤ length (s rd))%nat).
Proof.
  unfold ReadFull. case_decide as Hk.
  - intros [= <- <-]. subst k. rewrite take_0. repeat split; try done; lia.
  - pose proof (Reader_Read_bytes rd k) as Hb.
    pose proof (Reader_Read_source rd k) as Hs.
    pose proof (Reader_Read_cursor rd k) as Hi.
    destruct (Reader_Read rd k) as [[b0 e0] rd0]. simpl in *.
    case_decide as Hl; [|done]. intros [= <- <-]. rewrite Hi, Hl.
    repeat split; try done. intros _. rewrite Hb in Hl.
    rewrite length_take, length_drop in Hl. lia.
Qed.

Lemma ReadFull_short rd k :
  k ≠ 0%nat → (length (s rd) < i rd + k)%nat → ReadFull rd k = None.
Proof.
  intros Hk Hlt. destruct (ReadFull rd k) as [[b rd']|] eqn:Hrd; [|done].
  apply ReadFull_inv in Hrd as (_ & _ & _ & _ & Hle).
  specialize (Hle Hk). lia.
Qed.

(** X1.  A source of fewer than 36 bytes (the empty source included) is
    rejected with the header error.  Otherwise the header checks fail in the
    order of the code: signature, reserved fields, version, multi-part
    flags; the first check that fails decides the error, whatever the later
    fields and the rest of the source are. *)
Theorem New_header_errors (src : list byte) :
  let h := decode_cfHeader (take sizeof_cfHeader src) in
  ((length src < sizeof_cfHeader)%nat → New src = Err TruncatedHeader) ∧
  ((sizeof_cfHeader ≤ length src)%nat →
   (Signature h ≠ MSCF → New src = Err BadSignature) ∧
   (Signature h = MSCF →
    Reserved1 h ≠ 0 ∨ Reserved2 h ≠ 0 ∨ Reserved3 h ≠ 0 →
    New src = Err ReservedFieldViolation) ∧
   (Signature h = MSCF →
    Reserved1 h = 0 ∧ Reserved2 h = 0 ∧ Reserved3 h = 0 →
    VersionMajor h ≠ 1 ∨ VersionMinor h ≠ 3 →
    New src = Err (UnsupportedVersion (VersionMajor h) (VersionMinor h))) ∧
   (Signature h = MSCF →
    Reserved1 h = 0 ∧ Reserved2 h = 0 ∧ Reserved3 h = 0 →
    VersionMajor h = 1 ∧ VersionMinor h = 3 →
    Z.land (Flags h) hdrPrevCabinet ≠ 0 ∨ Z.land (Flags h) hdrNextCabinet ≠ 0 →
    New src = Err UnsupportedMultiPart)).
Proof.
  intros h. split.
  - intros Hshort. unfold New.
    rewrite ReadFull_short; [done|done|]. simpl. lia.
  - intros Hlen. unfold New. rewrite New_header_read by done. fold h.
    unfold checkHeader. repeat split.
    + intros Hsig. by rewrite decide_True.
    + intros Hsig Hres. rewrite decide_False by tauto. by rewrite decide_True.
    + intros Hsig Hres Hver. rewrite decide_False by tauto.
      rewrite decide_False by lia. by rewrite decide_True.
    + intros Hsig Hres Hver Hfl. rewrite decide_False by tauto.
      rewrite decide_False by lia. rewrite decide_False by lia.
      by rewrite decide_True.
Qed.

Lemma readFolders_layout n : ∀ rd j acc fs rd',
  readFolders rd n j acc = Ok (fs, rd') →
  fs = acc ++ ((λ k, decode_cfFolder
                       (take sizeof_cfFolder (drop (i rd + sizeof_cfFolder * k) (s rd))))
               <$> seq 0 n) ∧
  s rd' = s rd ∧ i rd' = (i rd + sizeof_cfFolder * n)%nat ∧
  (n ≠ 0%nat → (i rd + sizeof_cfFolder * n ≤ length (s rd))%nat).
Proof.
  induction n as [|n IH]; intros rd j acc fs rd' Hrd.
  - injection Hrd as <- <-. rewrite app_nil_r. repeat split; try done; lia.
  - cbn [readFolders] in Hrd.
    destruct (ReadFull rd sizeof_cfFolder) as [[b rd1]|] eqn:Hb; [|done].
    apply ReadFull_inv in Hb as (Hbytes & _ & Hs1 & Hi1 & Hle1).
    specialize (Hle1 ltac:(done)).
    assert (readFolders rd1 n (j + 1) (acc ++ [decode_cfFolder b]) = Ok (fs, rd'))
      as Hrest by (repeat case_decide; done).
    apply IH in Hrest as (-> & Hs & Hi & Hle).
    rewrite Hs1, Hi1 in *.
    split; [|split; [done|split; [lia|]]].
    + rewrite <- app_assoc. f_equal. cbn [seq fmap list_fmap]. simpl app.
      f_equal.
      * rewrite Hbytes. do 3 f_equal. lia.
      * rewrite <- fmap_S_seq, <- list_fmap_compose. apply list_fmap_ext.
        intros _ k _. simpl. do 3 f_equal. unfold sizeof_cfFolder. lia.
    + intros _. destruct (decide (n = 0%nat)); [subst; lia|].
      specialize (Hle ltac:(done)). unfold sizeof_cfFolder in *. lia.
Qed.

Lemma readFolders_supported n : ∀ rd j acc fs rd',
  readFolders rd n j acc = Ok (fs, rd') →
  Forall supportedTag acc → Forall supportedTag fs.
Proof.
  induction n as [|n IH]; intros rd j acc fs rd' Hrd Hacc.
  - by injection Hrd as <- <-.
  - cbn [readFolders] in Hrd.
    destruct (ReadFull rd sizeof_cfFolder) as [[b rd1]|]; [|done].
    destruct (decide (Z.land (TypeCompress (decode_cfFolder b)) compMask = compNone))
      as [H0|H0].
    + eapply IH; [done|]. apply Forall_app. split; [done|].
      constructor; [by left|done].
    + destruct (decide (Z.land (TypeCompress (decode_cfFolder b)) compMask = compMSZIP))
        as [H1|H1]; [|done].
      eapply IH; [done|]. apply Forall_app. split; [done|].
      constructor; [by right|done].
Qed.

Lemma readFiles_length n : ∀ rd j acc fl,
  readFiles rd n j acc = Ok fl → length fl = (length acc + n)%nat.
Proof.
  induction n as [|n IH]; intros rd j acc fl Hrd.
  - injection Hrd as <-. lia.
  - cbn [readFiles] in Hrd.
    destruct (ReadFull rd sizeof_cfFile) as [[b rd1]|]; [|done].
    destruct (ReadBytes0 rd1) as [fn|]; [|done].
    apply IH in Hrd. rewrite length_app in Hrd. simpl in Hrd. lia.
Qed.

Lemma New_Ok_inv src c :
  New src = Ok c →
  (sizeof_cfHeader ≤ length src)%nat ∧
  r c = src ∧ hdr c = decode_cfHeader (take sizeof_cfHeader src) ∧
  nextIdx c = 0%nat ∧ nextRdr c = None ∧
  checkHeader (hdr c) = Ok tt ∧
  (∃ rd2, readFolders {| s := src; i := sizeof_cfHeader |}
                      (Z.to_nat (CFolders (hdr c))) 0 [] = Ok (fldrs c, rd2) ∧
          readFiles (Reader_Seek rd2 (COFFFiles (hdr c)))
                    (Z.to_nat (CFiles (hdr c))) 0 [] = Ok (files c)).
Proof.
  unfold New.
  destruct (ReadFull _ sizeof_cfHeader) as [[b rd1]|] eqn:Hb; [|done].
  apply ReadFull_inv in Hb as (Hbytes & _ & Hs1 & Hi1 & Hle).
  specialize (Hle ltac:(done)). simpl in Hbytes, Hs1, Hi1, Hle.
  destruct (checkHeader _) as [[]| |] eqn:Hck; cbn [mbind outcome_bind]; try done.
  destruct (readFolders _ _ _ _) as [[fs rd2]| |] eqn:Hfs;
    cbn [mbind outcome_bind]; try done.
  destruct (readFiles _ _ _ _) as [fl| |] eqn:Hfl; cbn [mbind outcome_bind]; try done.
  intros [= <-]. cbn [r hdr fldrs files nextIdx nextRdr].
  rewrite Hbytes in *. destruct rd1 as [s1 i1]. simpl in Hs1, Hi1. subst s1 i1.
  repeat split; try done. by exists rd2.
Qed.

(** X2.  A cabinet returned by [New] is fresh (index 0, no cached reader),
    keeps the source, and its header is the decoded first 36 bytes, with the
    signature "MSCF", version 1.3, zero reserved fields and no multi-part
    flag; the folder and file tables have exactly the declared numbers of
    entries; and the low four bits of every folder's compression field name
    a supported scheme. *)
Theorem New_Ok_invariant (src : list byte) (c : Cabinet) :
  New src = Ok c →
  r c = src ∧ nextIdx c = 0%nat ∧ nextRdr c = None ∧
  hdr c = decode_cfHeader (take sizeof_cfHeader src) ∧
  Signature (hdr c) = MSCF ∧
  (VersionMajor (hdr c) = 1 ∧ VersionMinor (hdr c) = 3) ∧
  (Reserved1 (hdr c) = 0 ∧ Reserved2 (hdr c) = 0 ∧ Reserved3 (hdr c) = 0) ∧
  (Z.land (Flags (hdr c)) hdrPrevCabinet = 0 ∧
   Z.land (Flags (hdr c)) hdrNextCabinet = 0) ∧
  length (fldrs c) = Z.to_nat (CFolders (hdr c)) ∧
  length (files c) = Z.to_nat (CFiles (hdr c)) ∧
  Forall supportedTag (fldrs c).
Proof.
  intros Hnew.
  apply New_Ok_inv in Hnew as (_ & Hr & Hh & Hidx & Hrdr & Hck & rd2 & Hfs & Hfl).
  apply checkHeader_Ok in Hck as (Hsig & Hres & Hver & Hflags).
  repeat split; try done; try tauto.
  - apply readFolders_layout in Hfs as Hlay. destruct Hlay as (-> & _).
    rewrite length_app, length_fmap, length_seq. done.
  - apply readFiles_length in Hfl. simpl in Hfl. done.
  - eapply readFolders_supported; [done|constructor].
Qed.

(** X3.  In a cabinet returned by [New], folder [j] is the decoding of the
    eight bytes at offset [36 + 8 j] of the source, and these bytes lie
    inside the source. *)
Theorem New_folder_layout (src : list byte) (c : Cabinet) (j : nat) :
  New src = Ok c → (j < length (fldrs c))%nat →
  fldrs c !! j = Some (folderAt src j) ∧
  (sizeof_cfHeader + sizeof_cfFolder * (j + 1) ≤ length src)%nat.
Proof.
  intros Hnew Hj.
  apply New_Ok_inv in Hnew as (_ & _ & _ & _ & _ & _ & rd2 & Hfs & _).
  apply readFolders_layout in Hfs as (Hfldrs & _ & _ & Hle).
  cbn [s i] in Hfldrs, Hle. simpl app in Hfldrs.
  rewrite Hfldrs in Hj |- *. rewrite length_fmap, length_seq in Hj. split.
  - rewrite list_lookup_fmap, lookup_seq_lt by done. done.
  - specialize (Hle ltac:(lia)). unfold sizeof_cfFolder in *. lia.
Qed.

Lemma readFolders_first rd n j acc :
  (i rd + sizeof_cfFolder ≤ length (s rd))%nat →
  readFolders rd (S n) j acc =
  let fldr := decode_cfFolder (take sizeof_cfFolder (drop (i rd) (s rd))) in
  let rd' := {| s := s rd; i := (i rd + sizeof_cfFolder)%nat |} in
  if decide (Z.land (TypeCompress fldr) compMask = compNone)
  then readFolders rd' n (j + 1) (acc ++ [fldr])
  else if decide (Z.land (TypeCompress fldr) compMask = compMSZIP)
  then readFolders rd' n (j + 1) (acc ++ [fldr])
  else Err (UnsupportedAlgorithm (TypeCompress fldr)).
Proof.
  intros Hle. cbn [readFolders].
  by rewrite ReadFull_enough by (done || (unfold sizeof_cfFolder; lia)).
Qed.

Lemma readFolders_errors j : ∀ n rd j0 acc,
  (j < n)%nat →
  (∀ k, (k < j)%nat →
        (i rd + sizeof_cfFolder * (k + 1) ≤ length (s rd))%nat ∧
        supportedTag (decode_cfFolder
                        (take sizeof_cfFolder (drop (i rd + sizeof_cfFolder * k) (s rd))))) →
  ((length (s rd) < i rd + sizeof_cfFolder * (j + 1))%nat →
   readFolders rd n j0 acc = Err (TruncatedFolder (j0 + Z.of_nat j))) ∧
  ((i rd + sizeof_cfFolder * (j + 1) ≤ length (s rd))%nat →
   ∀ fldr, fldr = decode_cfFolder
                    (take sizeof_cfFolder (drop (i rd + sizeof_cfFolder * j) (s rd))) →
   ¬ supportedTag fldr →
   readFolders rd n j0 acc = Err (UnsupportedAlgorithm (TypeCompress fldr))).
Proof.
  induction j as [|j IH]; intros n rd j0 acc Hn Hpre;
    (destruct n as [|n]; [lia|]).
  - split.
    + intros Hshort. cbn [readFolders].
      rewrite ReadFull_short; [|done|unfold sizeof_cfFolder in *; lia].
      f_equal. f_equal. lia.
    + intros Hle fldr -> Hbad.
      rewrite readFolders_first by (unfold sizeof_cfFolder in *; lia).
      cbn zeta. rewrite Nat.mul_0_r, Nat.add_0_r in Hbad |- *.
      rewrite decide_False by (intros ?; apply Hbad; by left).
      rewrite decide_False by (intros ?; apply Hbad; by right). done.
  - destruct (Hpre 0%nat ltac:(lia)) as [Hle0 Hsup0].
    rewrite Nat.mul_0_r, Nat.add_0_r in Hsup0.
    set (rd' := {| s := s rd; i := (i rd + sizeof_cfFolder)%nat |}).
    set (acc' := acc ++ [decode_cfFolder
                           (take sizeof_cfFolder (drop (i rd) (s rd)))]).
    assert (∀ m, (i rd' + sizeof_cfFolder * m = i rd + sizeof_cfFolder * (S m))%nat)
      as Hshift by (intros m; subst rd'; unfold sizeof_cfFolder; simpl; lia).
    assert (readFolders rd (S n) j0 acc = readFolders rd' n (j0 + 1) acc') as Hstep.
    { rewrite readFolders_first by (unfold sizeof_cfFolder in *; lia). cbn zeta.
      fold rd'. fold acc'. destruct Hsup0 as [H0|H1].
      - by rewrite decide_True.
      - destruct (decide (_ = compNone)); [done|]. by rewrite decide_True. }
    rewrite Hstep.
    destruct (IH n rd' (j0 + 1) acc' ltac:(lia)) as [IHshort IHbad].
    { intros k Hk. destruct (Hpre (S k) ltac:(lia)) as [Hle Hsup].
      rewrite !Hshift. split; [|done].
      replace (S (k + 1)) with (S k + 1)%nat by lia. done. }
    assert ((i rd' + sizeof_cfFolder * (j + 1))%nat
            = (i rd + sizeof_cfFolder * (S j + 1))%nat) as Hend
      by (subst rd'; unfold sizeof_cfFolder; simpl; lia).
    split.
    + intros Hshort. rewrite IHshort by (rewrite Hend; done).
      do 2 f_equal. lia.
    + intros Hle fldr -> Hbad. apply IHbad.
      * rewrite Hend. done.
      * by rewrite Hshift.
      * done.
Qed.

(** X4.  With a header that passes its checks and declares more than [j]
    folders, and with the records before record [j] present and supported:
    if the source ends before the end of record [j], [New] fails with the
    folder-truncation error for [j]; if record [j] is present and the low
    four bits of its compression field are neither "none" nor MS-ZIP, [New]
    fails with the unsupported-algorithm error carrying the whole field. *)
Theorem New_folder_errors (src : list byte) (j : nat) :
  let h := decode_cfHeader (take sizeof_cfHeader src) in
  (sizeof_cfHeader ≤ length src)%nat →
  Signature h = MSCF →
  Reserved1 h = 0 ∧ Reserved2 h = 0 ∧ Reserved3 h = 0 →
  VersionMajor h = 1 ∧ VersionMinor h = 3 →
  Z.land (Flags h) hdrPrevCabinet = 0 ∧ Z.land (Flags h) hdrNextCabinet = 0 →
  (j < Z.to_nat (CFolders h))%nat →
  (∀ k, (k < j)%nat →
        (sizeof_cfHeader + sizeof_cfFolder * (k + 1) ≤ length src)%nat ∧
        supportedTag (folderAt src k)) →
  ((length src < sizeof_cfHeader + sizeof_cfFolder * (j + 1))%nat →
   New src = Err (TruncatedFolder (Z.of_nat j))) ∧
  ((sizeof_cfHeader + sizeof_cfFolder * (j + 1) ≤ length src)%nat →
   ¬ supportedTag (folderAt src j) →
   New src = Err (UnsupportedAlgorithm (TypeCompress (folderAt src j)))).
Proof.
  intros h Hlen Hsig Hres Hver Hfl Hj Hpre.
  assert (checkHeader h = Ok tt) as Hck by (apply checkHeader_Ok; done).
  destruct (readFolders_errors j (Z.to_nat (CFolders h))
              {| s := src; i := sizeof_cfHeader |} 0 [] Hj Hpre) as [Hshort Hbad].
  unfold New. rewrite New_header_read by done. fold h. rewrite Hck.
  cbn [mbind outcome_bind]. split.
  - intros Hs. rewrite (Hshort Hs). done.
  - intros Hle Hb. rewrite (Hbad Hle _ eq_refl Hb). done.
Qed.

Lemma IndexByte0_Some l m :
  IndexByte0 l = Some m → l !! m = Some x00 ∧ x00 ∉ take m l.
Proof.
  revert m. induction l as [|b l IH]; intros m; [done|]. cbn [IndexByte0].
  case_decide as Hb.
  - intros [= <-]. subst b. split; [done|]. rewrite take_0. apply not_elem_of_nil.
  - destruct (IndexByte0 l) as [m'|]; [|done]. intros [= <-].
    destruct (IH m' eq_refl) as [Hm Hno]. split; [done|].
    cbn [take]. rewrite not_elem_of_cons. split; [congruence|done].
Qed.

Lemma nameLength_no_NUL src pos :
  x00 ∉ take (nameLength src pos) (drop pos src).
Proof.
  unfold nameLength. destruct (IndexByte0 (drop pos src)) as [m|] eqn:Hm.
  - by apply IndexByte0_Some in Hm as [_ ?].
  - simpl. rewrite take_0. apply not_elem_of_nil.
Qed.

Lemma readFiles_layout n : ∀ rd j acc fl,
  readFiles rd n j acc = Ok fl →
  fl = acc ++ ((λ k, fileAt (s rd) (filePos (s rd) (i rd) k)) <$> seq 0 n) ∧
  ∀ k, (k < n)%nat →
       s rd !! (filePos (s rd) (i rd) k + sizeof_cfFile
                + nameLength (s rd) (filePos (s rd) (i rd) k + sizeof_cfFile))%nat
       = Some x00.
Proof.
  induction n as [|n IH]; intros rd j acc fl Hrd.
  - injection Hrd as <-. rewrite app_nil_r. split; [done|]. intros k Hk. lia.
  - cbn [readFiles] in Hrd.
    destruct (ReadFull rd sizeof_cfFile) as [[b rd1]|] eqn:Hb; [|done].
    apply ReadFull_inv in Hb as (Hbytes & _ & Hs1 & Hi1 & _).
    unfold ReadBytes0 in Hrd. rewrite Hs1, Hi1 in Hrd.
    destruct (IndexByte0 (drop (i rd + sizeof_cfFile) (s rd))) as [m|] eqn:Hm;
      [|done].
    cbn [mbind option_bind] in Hrd.
    apply IndexByte0_Some in Hm as Hzero. destruct Hzero as [Hzero _].
    apply lookup_lt_Some in Hzero as Hlt.
    assert (nameLength (s rd) (i rd + sizeof_cfFile) = m) as Hname
      by (unfold nameLength; by rewrite Hm).
    rewrite length_take in Hrd.
    replace (S m `min` length (drop (i rd + sizeof_cfFile) (s rd)))%nat
      with (S m) in Hrd by lia.
    replace (S m - 1)%nat with m in Hrd by lia.
    rewrite take_take in Hrd. replace (m `min` S m)%nat with m in Hrd by lia.
    apply IH in Hrd as [-> Hnul]. cbn [s i Reader_Seek] in *.
    replace (Z.to_nat (Z.of_nat (i rd + sizeof_cfFile) + Z.of_nat (S m)))
      with (i rd + sizeof_cfFile + m + 1)%nat in * by lia.
    rewrite Hs1 in *. split.
    + rewrite <- app_assoc. f_equal. cbn [seq fmap list_fmap]. simpl app.
      f_equal.
      * unfold fileAt. cbn [filePos]. rewrite Hname, Hbytes. done.
      * rewrite <- fmap_S_seq, <- list_fmap_compose. apply list_fmap_ext.
        intros _ k _. simpl. rewrite Hname. done.
    + intros [|k] Hk.
      * cbn [filePos]. rewrite Hname. rewrite lookup_drop in Hzero. done.
      * cbn [filePos]. rewrite Hname. apply Hnul. lia.
Qed.

(** X5.  In a cabinet returned by [New], file [j] is the record at its
    offset in the source: the first record starts at the offset declared in
    the header and each next one right after the zero byte that ends the
    name before it; the entry is the decoding of sixteen bytes, the name is
    the bytes up to the terminating zero byte, which is in the source, and
    the name contains no zero byte. *)
Theorem New_file_layout (src : list byte) (c : Cabinet) (j : nat) :
  New src = Ok c → (j < length (files c))%nat →
  let pos := filePos src (Z.to_nat (COFFFiles (hdr c))) j in
  let len := nameLength src (pos + sizeof_cfFile) in
  files c !! j = Some (fileAt src pos) ∧
  name (fileAt src pos)
  = String.string_of_list_byte (take len (drop (pos + sizeof_cfFile) src)) ∧
  src !! (pos + sizeof_cfFile + len)%nat = Some x00 ∧
  x00 ∉ String.list_byte_of_string (name (fileAt src pos)).
Proof.
  intros Hnew Hj pos len.
  apply New_Ok_inv in Hnew as (_ & _ & _ & _ & _ & _ & rd2 & Hfs & Hfl).
  apply readFolders_layout in Hfs as (_ & Hs2 & _).
  apply readFiles_layout in Hfl as [Hfiles Hnul].
  cbn [s i Reader_Seek] in Hfiles, Hnul, Hs2. rewrite Hs2 in *.
  simpl app in Hfiles. rewrite Hfiles in Hj |- *.
  rewrite length_fmap, length_seq in Hj.
  split; [|split; [done|split]].
  - rewrite list_lookup_fmap, lookup_seq_lt by done. done.
  - by apply Hnul.
  - unfold fileAt. cbn [name].
    rewrite String.list_byte_of_string_of_list_byte. apply nameLength_no_NUL.
Qed.

(** ** folderData: index, layout of the blocks, and the panic *)

Section FolderDataMore.

Variable flate : list byte → list byte → nat → list byte * option ioerr.

Lemma afterRead_cases fldr d payload rd2 n j history buf res :
  afterRead flate fldr d payload rd2 n j history buf = res →
  (TypeCompress fldr = compNone ∧
   ((CBData d ≠ CBUncomp d ∧ res = Err (SizeMismatch (CBData d) j (CBUncomp d))) ∨
    (CBData d = CBUncomp d ∧
     res = dataBlocks flate fldr rd2 n (j + 1) history (buf ++ payload)))) ∨
  (TypeCompress fldr = compMSZIP ∧
   (((length payload < 2)%nat ∧ res = Panic) ∨
    (take 2 payload ≠ CK ∧ res = Err (BadBlockSignature j)) ∨
    (∃ stream data derr,
        payload = CK ++ stream ∧
        flate history stream (Z.to_nat (CBUncomp d)) = (data, derr) ∧
        ((Z.of_nat (length data) ≠ CBUncomp d ∧
          res = Err (DecompressionFailure (Z.of_nat (length data)) j (CBUncomp d))) ∨
         (Z.of_nat (length data) = CBUncomp d ∧
          derr ≠ None ∧ derr ≠ Some io_EOF ∧ res = Err (DecompressionError j)) ∨
         (Z.of_nat (length data) = CBUncomp d ∧
          (derr = None ∨ derr = Some io_EOF) ∧
          res = dataBlocks flate fldr rd2 n (j + 1) data (buf ++ data)))))) ∨
  (TypeCompress fldr ≠ compNone ∧ TypeCompress fldr ≠ compMSZIP ∧
   res = Err UnsupportedCompression).
Proof.
  unfold afterRead. intros <-.
  destruct (decide (TypeCompress fldr = compNone)) as [Hn|Hn].
  { left. split; [done|]. destruct (decide (CBData d ≠ CBUncomp d)) as [|Heq];
      [by left|right]. apply dec_stable in Heq. done. }
  destruct (decide (TypeCompress fldr = compMSZIP)) as [Hz|Hz]; [|by right; right].
  right; left. split; [done|].
  destruct (decide (length payload < 2)%nat) as [|Hlen]; [by left|].
  destruct (decide (take 2 payload ≠ CK)) as [|Hsig]; [by right; left|].
  apply dec_stable in Hsig. right; right.
  destruct (flate history (drop 2 payload) _) as [data derr] eqn:Hfl.
  exists (drop 2 payload), data, derr.
  split; [by rewrite <- Hsig, take_drop|]. split; [done|].
  destruct (decide (Z.of_nat (length data) ≠ _)) as [|Hcnt]; [by left|].
  apply dec_stable in Hcnt. right.
  destruct (decide (derr ≠ None ∧ derr ≠ Some io_EOF)) as [[? ?]|Herr]; [by left|].
  right. repeat split; try done.
  destruct (decide (derr = None)); [by left|].
  destruct (decide (derr = Some io_EOF)); [by right|]. tauto.
Qed.

Lemma dataBlocks_cases fldr rd n j history buf :
  dataBlocks flate fldr rd (S n) j history buf = Err (TruncatedBlockHeader j) ∨
  (∃ k, dataBlocks flate fldr rd (S n) j history buf
        = Err (TruncatedBlock k j (CBData (decode_cfData
                 (take sizeof_cfData (drop (i rd) (s rd))))))) ∨
  dataBlocks flate fldr rd (S n) j history buf = Err (BlockReadError j) ∨
  ∃ b rd1 payload rd2,
    ReadFull rd sizeof_cfData = Some (b, rd1) ∧
    Reader_Read rd1 (Z.to_nat (CBData (decode_cfData b))) = (payload, None, rd2) ∧
    Z.of_nat (length payload) = CBData (decode_cfData b) ∧
    dataBlocks flate fldr rd (S n) j history buf
    = afterRead flate fldr (decode_cfData b) payload rd2 n j history buf.
Proof.
  destruct (ReadFull rd sizeof_cfData) as [[b rd1]|] eqn:Hhdr.
  2: { left. cbn [dataBlocks]. by rewrite Hhdr. }
  right. destruct (Reader_Read rd1 (Z.to_nat (CBData (decode_cfData b))))
    as [[payload err] rd2] eqn:Hrd.
  destruct (decide (Z.of_nat (length payload) = CBData (decode_cfData b))) as [Hl|Hl].
  2: { left. exists (Z.of_nat (length payload)). cbn [dataBlocks].
       rewrite Hhdr, Hrd. rewrite decide_True by done.
       apply ReadFull_inv in Hhdr as (-> & _). done. }
  right. destruct err as [e|].
  { left. cbn [dataBlocks]. rewrite Hhdr, Hrd.
    rewrite decide_False by (intros ?; done). by rewrite decide_True. }
  right. exists b, rd1, payload, rd2. repeat split; try done.
  by apply (dataBlocks_read flate fldr rd b rd1).
Qed.

Lemma dataBlocks_not_index fldr n : ∀ rd j history buf,
  dataBlocks flate fldr rd n j history buf ≠ Err FolderIndexOutOfRange.
Proof.
  induction n as [|n IH]; intros rd j history buf; [done|].
  destruct (dataBlocks_cases fldr rd n j history buf)
    as [->|[[k ->]|[->|(b & rd1 & payload & rd2 & _ & _ & _ & ->)]]]; try done.
  intros Hres. apply afterRead_cases in Hres.
  destruct Hres as [(_ & [(_ & ?)|(_ & Hrec)])|
                    [(_ & [(_ & ?)|[(_ & ?)|(st & data & derr & _ & _ & Hres)]])|
                     (_ & _ & ?)]]; try done.
  - by apply eq_sym, IH in Hrec.
  - destruct Hres as [(_ & ?)|[(_ & _ & _ & ?)|(_ & _ & Hrec)]]; try done.
    by apply eq_sym, IH in Hrec.
Qed.

(** X6.  For an index of type uint16, [folderData] fails with the
    out-of-range error exactly when the index is not below the number of
    folders; no failure of the block loop is reported as that error. *)
Theorem folderData_index_error (c : Cabinet) (idx : Z) :
  0 ≤ idx →
  folderData flate c idx = Err FolderIndexOutOfRange ↔
  Z.of_nat (length (fldrs c)) ≤ idx.
Proof.
  intros Hidx. split.
  - intros Herr. destruct (decide (Z.of_nat (length (fldrs c)) ≤ idx)) as [|Hin]; [done|].
    destruct (lookup_lt_is_Some_2 (fldrs c) (Z.to_nat idx)) as [fldr Hf]; [lia|].
    rewrite (folderData_unfold flate c idx fldr Hidx Hf) in Herr.
    destruct (dataBlocks _ _ _ _ _ _ _) as [buf|e|] eqn:Hblk;
      cbn [mbind outcome_bind] in Herr; try done.
    injection Herr as ->. by apply dataBlocks_not_index in Hblk.
  - intros Hge. unfold folderData. by rewrite decide_True.
Qed.

Lemma blocksAt_span rd blks rd' :
  blocksAt rd blks rd' →
  s rd' = s rd ∧ i rd' = (i rd + framedSize blks)%nat ∧
  (blks ≠ [] → (i rd' ≤ length (s rd))%nat).
Proof.
  induction 1 as [rd|rd b rd1 payload rd2 blks rd3 Hh Hr Hl _ IH].
  - unfold framedSize. simpl. repeat split; try done; lia.
  - apply ReadFull_inv in Hh as (_ & _ & Hs1 & Hi1 & Hle1).
    specialize (Hle1 ltac:(done)).
    pose proof (Reader_Read_source rd1 (Z.to_nat (CBData (decode_cfData b)))) as Hs2.
    pose proof (Reader_Read_cursor rd1 (Z.to_nat (CBData (decode_cfData b)))) as Hi2.
    pose proof (Reader_Read_bytes rd1 (Z.to_nat (CBData (decode_cfData b)))) as Hb2.
    rewrite Hr in Hs2, Hi2, Hb2. simpl in Hs2, Hi2, Hb2.
    destruct IH as (Hs3 & Hi3 & Hle3).
    assert (length payload = Z.to_nat (CBData (decode_cfData b))) as Hlen by lia.
    split; [congruence|]. split.
    + unfold framedSize in *. cbn [sum_list_with fst]. lia.
    + intros _. destruct blks as [|blk blks].
      * unfold framedSize in Hi3. simpl in Hi3. rewrite Hi3, Hi2.
        rewrite Hb2, length_take, length_drop, Hs1 in Hlen |- *. lia.
      * rewrite <- Hs1, <- Hs2. by apply Hle3.
Qed.

Lemma dataBlocks_Ok_size fldr n : ∀ rd j history buf out,
  dataBlocks flate fldr rd n j history buf = Ok out →
  ∃ blks rd', blocksAt rd blks rd' ∧ length blks = n ∧
              length out = (length buf + declaredSize blks)%nat.
Proof.
  induction n as [|n IH]; intros rd j history buf out Hok.
  - injection Hok as <-. exists [], rd. split; [constructor|].
    unfold declaredSize. simpl. split; [done|lia].
  - apply dataBlocks_Ok_inv in Hok as (b & rd1 & payload & rd2 & Hh & Hr & Hl & Hok).
    apply afterRead_cases in Hok.
    destruct Hok as [(_ & [(_ & ?)|(Hcnt & Hrec)])|
                     [(_ & [(_ & ?)|[(_ & ?)|(st & data & derr & _ & _ & Hres)]])|
                      (_ & _ & ?)]]; try done.
    + apply eq_sym, IH in Hrec as (blks & rd' & Hblks & Hn & Hlen).
      exists ((decode_cfData b, payload) :: blks), rd'.
      split; [by econstructor|]. split; [simpl; lia|].
      rewrite Hlen, length_app. unfold declaredSize. cbn [sum_list_with fst]. lia.
    + destruct Hres as [(_ & ?)|[(_ & _ & _ & ?)|(Hcnt & _ & Hrec)]]; try done.
      apply eq_sym, IH in Hrec as (blks & rd' & Hblks & Hn & Hlen).
      exists ((decode_cfData b, payload) :: blks), rd'.
      split; [by econstructor|]. split; [simpl; lia|].
      rewrite Hlen, length_app. unfold declaredSize. cbn [sum_list_with fst]. lia.
Qed.

(** X7.  When [folderData] succeeds, the reader it returns is positioned at
    0 and its length is the sum of the uncompressed counts that the blocks
    declare; the [CCFData] blocks lie one after the other in the source from
    the folder's offset, each taking eight bytes plus its compressed count,
    and they end inside the source. *)
Theorem folderData_Ok_layout (c : Cabinet) (idx : Z) (fldr : cfFolder) (rd : Reader) :
  0 ≤ idx → fldrs c !! Z.to_nat idx = Some fldr →
  folderData flate c idx = Ok rd →
  i rd = 0%nat ∧
  ∃ blks rd',
    blocksAt (folderStart c fldr) blks rd' ∧
    length blks = Z.to_nat (CCFData fldr) ∧
    length (s rd) = declaredSize blks ∧
    i rd' = (Z.to_nat (COFFCabStart fldr) + framedSize blks)%nat ∧
    (blks ≠ [] → (i rd' ≤ length (r c))%nat).
Proof.
  intros Hidx Hf Hok.
  apply (folderData_Ok flate c idx fldr rd Hidx Hf) in Hok as (buf & Hblk & ->).
  split; [done|].
  apply dataBlocks_Ok_size in Hblk as (blks & rd' & Hblks & Hn & Hlen).
  exists blks, rd'. apply blocksAt_span in Hblks as Hspan.
  destruct Hspan as (_ & Hi & Hle). repeat split; try done.
Qed.

End FolderDataMore.

Section FolderDataPanic.

Variable flate : list byte → list byte → nat → list byte * option ioerr.

Lemma dataBlocks_Panic_inv fldr n : ∀ rd j history buf,
  dataBlocks flate fldr rd n j history buf = Panic →
  TypeCompress fldr = compMSZIP ∧
  ∃ pre blk rd' outs,
    blocksAt rd (pre ++ [blk]) rd' ∧ (length pre < n)%nat ∧
    mszipChain flate history pre outs ∧ (length blk.2 < 2)%nat.
Proof.
  induction n as [|n IH]; intros rd j history buf Hp; [done|].
  destruct (dataBlocks_cases flate fldr rd n j history buf)
    as [He|[[k He]|[He|(b & rd1 & payload & rd2 & Hh & Hr & Hl & He)]]];
    rewrite He in Hp; try done.
  apply afterRead_cases in Hp.
  destruct Hp as [(Hnone & [(_ & ?)|(_ & Hrec)])|
                  [(Hzip & [(Hshort & _)|[(_ & ?)|(st & data & derr & Hpay & Hfl & Hres)]])|
                   (_ & _ & ?)]]; try done.
  - apply eq_sym, IH in Hrec as [Hz _]. rewrite Hnone in Hz. done.
  - split; [done|]. exists [], (decode_cfData b, payload), rd2, [].
    split; [|split; [simpl; lia|split; [constructor|done]]].
    econstructor; try done. constructor.
  - destruct Hres as [(_ & ?)|[(_ & _ & _ & ?)|(Hcnt & Herr & Hrec)]]; try done.
    apply eq_sym, IH in Hrec as [_ (pre & blk & rd' & outs & Hblks & Hn & Hchain & Hlen)].
    split; [done|].
    exists ((decode_cfData b, payload) :: pre), blk, rd', (data :: outs).
    split; [|split; [simpl; lia|split; [|done]]].
    + simpl. by econstructor.
    + rewrite Hpay. by econstructor.
Qed.

Lemma dataBlocks_Panic_intro fldr :
  TypeCompress fldr = compMSZIP →
  ∀ pre blk rd rd' outs n j history buf,
    blocksAt rd (pre ++ [blk]) rd' → (length pre < n)%nat →
    mszipChain flate history pre outs → (length blk.2 < 2)%nat →
    dataBlocks flate fldr rd n j history buf = Panic.
Proof.
  intros Hzip. induction pre as [|p pre IH];
    intros blk rd rd' outs n j history buf Hblks Hn Hchain Hlen;
    (destruct n as [|n]; [simpl in Hn; lia|]).
  - apply blocksAt_cons_inv in Hblks as (b & rd1 & rd2 & Heq & Hh & Hr & Hl & _).
    by apply (dataBlocks_mszip_short_payload flate fldr rd b rd1 blk.2 rd2).
  - inversion Hchain as [|? d stream data err ? outs' Hfl Hcnt Herr Hrest]; subst.
    destruct (dataBlocks_mszip_step flate fldr rd _ rd' _ n j history buf
                Hzip Hblks stream eq_refl) as (rd2 & Hblks' & ->).
    simpl. rewrite Hfl.
    rewrite decide_False by (intros Hne; apply Hne, Hcnt).
    rewrite decide_False by (intros [? ?]; destruct Herr; done).
    eapply IH; try done. simpl in Hn. lia.
Qed.

(** X8.  [folderData] panics exactly when the folder's compression field is
    MS-ZIP and, after blocks that decode under the MS-ZIP rule, a block
    within the declared count is read whose payload has fewer than two
    bytes.  In particular no stored folder makes it panic. *)
Theorem folderData_Panic_iff (c : Cabinet) (idx : Z) :
  0 ≤ idx →
  folderData flate c idx = Panic ↔
  ∃ fldr, fldrs c !! Z.to_nat idx = Some fldr ∧
          TypeCompress fldr = compMSZIP ∧
          ∃ pre blk rd' outs,
            blocksAt (folderStart c fldr) (pre ++ [blk]) rd' ∧
            (length pre < Z.to_nat (CCFData fldr))%nat ∧
            mszipChain flate [] pre outs ∧ (length blk.2 < 2)%nat.
Proof.
  intros Hidx. split.
  - intros Hp. destruct (fldrs c !! Z.to_nat idx) as [fldr|] eqn:Hf.
    2: { unfold folderData in Hp. rewrite Hf in Hp. by case_decide. }
    exists fldr. split; [done|].
    rewrite (folderData_unfold flate c idx fldr Hidx Hf) in Hp.
    destruct (dataBlocks _ _ _ _ _ _ _) as [buf|e|] eqn:Hblk;
      cbn [mbind outcome_bind] in Hp; try done.
    by apply dataBlocks_Panic_inv in Hblk.
  - intros (fldr & Hf & Hzip & pre & blk & rd' & outs & Hblks & Hn & Hchain & Hlen).
    rewrite (folderData_unfold flate c idx fldr Hidx Hf).
    by rewrite (dataBlocks_Panic_intro fldr Hzip pre blk _ rd' outs _ 0 [] []
                  Hblks Hn Hchain Hlen).
Qed.

End FolderDataPanic.

(** ** FileList, Content and Next together *)

Section AccessMore.

Variable flate : list byte → list byte → nat → list byte * option ioerr.

(** X9.  [FileList] has one name per file entry, in table order, and a name
    gets the not-found error from [Content] exactly when [FileList] does not
    list it. *)
Theorem FileList_Content (c : Cabinet) :
  length (FileList c) = length (files c) ∧
  (∀ j, FileList c !! j = name <$> files c !! j) ∧
  (∀ nm, Content flate c nm = Err (FileNotFound nm) ↔ nm ∉ FileList c).
Proof.
  unfold FileList. split; [by rewrite length_fmap|].
  split; [intros j; by rewrite list_lookup_fmap|].
  intros nm. unfold Content. split.
  - intros Herr Hin. apply list_elem_of_fmap in Hin as (f & -> & Hf).
    destruct (firstMatch_or_none (files c) (name f)) as [[g Hg]|Hnone].
    + rewrite (contentLoop_firstMatch flate c _ _ _ Hg) in Herr.
      by apply contentOf_not_FileNotFound in Herr.
    + rewrite Forall_forall in Hnone. by apply (Hnone f).
  - intros Hnot. apply contentLoop_no_match. apply Forall_forall.
    intros f Hf Hname. apply Hnot. apply list_elem_of_fmap. by exists f.
Qed.

Lemma contentOf_Ok c f rd :
  contentOf flate c f = Ok rd →
  ∃ data, folderData flate c (IFolder (entry f)) = Ok data ∧
          rd = NewReader (slice (s data) (UOffFolderStart (entry f)) (CBFile (entry f))).
Proof.
  unfold contentOf.
  destruct (folderData flate c (IFolder (entry f))) as [data| |]; [|done..].
  pose proof (Reader_Read_bytes (Reader_Seek data (UOffFolderStart (entry f)))
                (Z.to_nat (CBFile (entry f)))) as Hb.
  destruct (Reader_Read _ _) as [[blob err] rd']. simpl in Hb.
  case_decide; [done|]. destruct err; [done|]. intros [= <-].
  exists data. split; [done|]. by rewrite Hb.
Qed.

(** What [Next] does to the cabinet and to the store, whatever it returns. *)
Lemma Next_inv c w res c' w' :
  Next flate c w = (res, c', w') →
  r c' = r c ∧ hdr c' = hdr c ∧ fldrs c' = fldrs c ∧ files c' = files c ∧
  (length (heap w) ≤ length (heap w'))%nat ∧ calls w `prefix_of` calls w' ∧
  match res with
  | Ok (l, st) =>
    ∃ f, files c !! nextIdx c = Some f ∧ nextIdx c' = S (nextIdx c) ∧
         st = statOf f ∧ N l = CBFile (entry f) ∧
         nextRdr c' = Some (R l) ∧ (R l < length (heap w'))%nat
  | _ => c' = c ∧ heap w' = heap w
  end.
Proof.
  unfold Next. case_decide as Hend.
  { intros [= <- <- <-]. repeat split; done. }
  destruct (files c !! nextIdx c) as [f|] eqn:Hf.
  2: { intros [= <- <- <-]. repeat split; done. }
  destruct (newFolder c f) eqn:Hnew.
  - destruct (folderData flate c (IFolder (entry f))) as [data| |].
    + cbn [nextRdr setReader heap alloc logCall].
      rewrite lookup_app_r by lia. rewrite Nat.sub_diag. cbn [lookup list_lookup].
      intros [= <- <- <-]. cbn. rewrite length_insert, length_app. cbn.
      repeat split; try done; try lia.
      * by apply prefix_app_r.
      * exists f. repeat split; try done; lia.
    + intros [= <- <- <-]. cbn. repeat split; try done. by apply prefix_app_r.
    + intros [= <- <- <-]. cbn. repeat split; try done. by apply prefix_app_r.
  - cbv beta iota. destruct (nextRdr c) as [l|] eqn:Hl.
    2: { intros [= <- <- <-]. repeat split; done. }
    destruct (heap w !! l) as [rd|] eqn:Hrd.
    2: { intros [= <- <- <-]. repeat split; done. }
    intros [= <- <- <-]. cbn. rewrite length_insert.
    repeat split; try done.
    exists f. repeat split; try done; try lia. by eapply lookup_lt_Some.
Qed.

Lemma Next_end_inv c w :
  (Next flate c w).1.1 = Err EndOfSequence → (length (files c) ≤ nextIdx c)%nat.
Proof.
  unfold Next. case_decide as Hend; [done|].
  destruct (lookup_lt_is_Some_2 (files c) (nextIdx c)) as [f Hf]; [lia|].
  rewrite Hf. destruct (newFolder c f).
  - destruct (folderData flate c (IFolder (entry f))) as [data| |]; [|done..].
    cbn [nextRdr setReader heap alloc logCall].
    rewrite lookup_app_r by lia. by rewrite Nat.sub_diag.
  - cbv beta iota. destruct (nextRdr c) as [l|]; [|done].
    by destruct (heap w !! l).
Qed.

(** X10.  [Next] reports the end of the sequence exactly when its index has
    reached the number of files, and it then leaves the cabinet and the
    store as they are, so every later call reports the end again. *)
Theorem Next_end_iff (c : Cabinet) (w : world) :
  ((Next flate c w).1.1 = Err EndOfSequence ↔ (length (files c) ≤ nextIdx c)%nat) ∧
  ((length (files c) ≤ nextIdx c)%nat → Next flate c w = (Err EndOfSequence, c, w)).
Proof.
  split; [|apply Next_end].
  split; [apply Next_end_inv|intros Hge; by rewrite Next_end].
Qed.

(** X11.  [Next] never changes the source, the header or the two tables,
    never removes a reader from the store and only extends the log.  When it
    returns a file, that file is the entry at the index, the index has
    advanced by one, the metadata carry the entry's name and size, the
    reader is limited to the entry's size and points to the reader cached in
    the cabinet.  When it fails or panics, the cabinet is unchanged, so the
    next call is made for the same file. *)
Theorem Next_state (c : Cabinet) (w : world)
    (res : outcome (LimitedReader * fileStat)) (c' : Cabinet) (w' : world) :
  Next flate c w = (res, c', w') →
  r c' = r c ∧ hdr c' = hdr c ∧ fldrs c' = fldrs c ∧ files c' = files c ∧
  (length (heap w) ≤ length (heap w'))%nat ∧ calls w `prefix_of` calls w' ∧
  match res with
  | Ok (l, st) =>
    ∃ f, files c !! nextIdx c = Some f ∧ nextIdx c' = S (nextIdx c) ∧
         st = statOf f ∧ N l = CBFile (entry f) ∧
         nextRdr c' = Some (R l) ∧ (R l < length (heap w'))%nat
  | _ => c' = c ∧ heap w' = heap w
  end.
Proof. apply Next_inv. Qed.

Lemma walk_inv fuel : ∀ c w xs stop c' w',
  walk flate fuel c w = (xs, stop, c', w') →
  snd <$> xs = statOf <$> take (length xs) (drop (nextIdx c) (files c)) ∧
  nextIdx c' = (nextIdx c + length xs)%nat ∧ files c' = files c ∧
  (stop = Some (Err EndOfSequence) → (length (files c) ≤ nextIdx c')%nat) ∧
  (stop = None → length xs = fuel).
Proof.
  induction fuel as [|fuel IH]; intros c w xs stop c' w' Hwalk.
  - injection Hwalk as <- <- <- <-. simpl. repeat split; try done; lia.
  - cbn [walk] in Hwalk.
    destruct (Next flate c w) as [[res c1] w1] eqn:Hnext.
    pose proof (Next_inv c w res c1 w1 Hnext) as (_ & _ & _ & Hfs & _ & _ & Hres).
    destruct res as [[l st]|e|].
    + destruct Hres as (f & Hf & Hidx & -> & _).
      destruct (walk flate fuel c1 w1) as [[[xs1 stop1] c2] w2] eqn:Hw1.
      injection Hwalk as <- <- <- <-.
      apply IH in Hw1 as (Hst & Hi & Hf2 & Hstop & Hnone).
      rewrite Hidx, Hfs in *. repeat split.
      * cbn [fmap list_fmap length]. rewrite (drop_S _ f _ Hf).
        cbn [take fmap list_fmap]. f_equal. exact Hst.
      * simpl. lia.
      * done.
      * done.
      * intros Hn. simpl. by rewrite Hnone.
    + injection Hwalk as <- <- <- <-. destruct Hres as [-> _].
      simpl. repeat split; try done; try lia.
      intros [= ->].
      destruct (decide (length (files c) ≤ nextIdx c)%nat) as [|Hlt]; [done|].
      exfalso. pose proof (Next_end_inv c w) as Hiff.
      rewrite Hnext in Hiff. specialize (Hiff eq_refl). lia.
    + injection Hwalk as <- <- <- <-. destruct Hres as [-> _].
      simpl. repeat split; try done; lia.
Qed.

(** X12.  Walking a cabinet returned by [New] yields the files in table
    order: the metadata of the files returned are those of a prefix of the
    file table, and when the walk ends with the end-of-sequence error the
    names returned are exactly [FileList]. *)
Theorem walk_table_order (src : list byte) (c : Cabinet) (fuel : nat) (w : world)
    (xs : list (LimitedReader * fileStat)) (stop : option (outcome unit))
    (c' : Cabinet) (w' : world) :
  New src = Ok c →
  walk flate fuel c w = (xs, stop, c', w') →
  snd <$> xs = statOf <$> take (length xs) (files c) ∧
  (stop = Some (Err EndOfSequence) →
   snd <$> xs = statOf <$> files c ∧
   (fs_name ∘ snd) <$> xs = FileList c).
Proof.
  intros Hnew Hwalk. apply New_inv in Hnew as (_ & Hidx & _).
  apply walk_inv in Hwalk as (Hst & Hi & _ & Hstop & _).
  rewrite Hidx in Hst, Hi. rewrite drop_0 in Hst. split; [done|].
  intros Hend. specialize (Hstop Hend). simpl in Hi.
  assert (statOf <$> take (length xs) (files c) = statOf <$> files c) as Hall
    by (rewrite take_ge by lia; done).
  split; [by rewrite Hst|].
  rewrite list_fmap_compose, Hst, Hall. unfold FileList.
  rewrite <- list_fmap_compose. done.
Qed.

(** X13.  The two ways to a file's bytes agree: in a coherent state, when
    the file that [Next] returns is the first entry of its name and
    [Content] succeeds for that name, a read of [k] bytes on the reader of
    [Next] delivers the first [k] bytes of what [Content] returns. *)
Theorem Content_Next_agree (c : Cabinet) (w : world) (f : file)
    (l : LimitedReader) (st : fileStat) (c' : Cabinet) (w' : world) (rd : Reader) :
  cacheCoherent flate c w →
  files c !! nextIdx c = Some f → firstMatch (files c) (name f) f →
  Next flate c w = (Ok (l, st), c', w') →
  Content flate c (name f) = Ok rd →
  i rd = 0%nat ∧
  ∀ k, (LimitedReader_Read l k w').1.1.1 = take k (s rd).
Proof.
  intros Hcoh Hf Hfirst Hnext Hcontent.
  unfold Content in Hcontent.
  rewrite (contentLoop_firstMatch flate c _ _ _ Hfirst) in Hcontent.
  apply contentOf_Ok in Hcontent as (data & Hdata & ->). split; [done|].
  destruct (Next_Ok_inv flate c w l st c' w' Hcoh Hnext)
    as (f' & data' & rd' & Hf' & Hdata' & Hl & _ & _ & _ & _ & _ & _ & Hrd & Hs & Hi).
  assert (f' = f) as -> by congruence.
  assert (data' = data) as -> by congruence.
  intros k. rewrite (LimitedReader_Read_bytes l k w' rd' Hrd).
  rewrite Hs, Hi, Hl. done.
Qed.

(** X14.  A reader stays valid across a folder transition: when the next
    file lies in another folder, the second [Next] allocates a new
    underlying reader, and a read on the first reader still delivers the
    bytes of the first file. *)
Theorem Next_reader_survives_transition (c : Cabinet) (w : world) (f1 f2 : file)
    (l1 l2 : LimitedReader) (st1 st2 : fileStat) (c1 c2 : Cabinet) (w1 w2 : world) :
  cacheCoherent flate c w →
  files c !! nextIdx c = Some f1 → files c !! S (nextIdx c) = Some f2 →
  IFolder (entry f1) ≠ IFolder (entry f2) →
  Next flate c w = (Ok (l1, st1), c1, w1) →
  Next flate c1 w1 = (Ok (l2, st2), c2, w2) →
  R l2 ≠ R l1 ∧
  ∃ data, folderData flate c (IFolder (entry f1)) = Ok data ∧
          ∀ k, (LimitedReader_Read l1 k w2).1.1.1
               = take k (slice (s data) (UOffFolderStart (entry f1))
                               (CBFile (entry f1))).
Proof.
  intros Hcoh Hf1 Hf2 Hdiff Hnext1 Hnext2.
  destruct (Next_Ok_inv flate c w l1 st1 c1 w1 Hcoh Hnext1)
    as (f & data & rd & Hf & Hdata & Hl1 & _ & Hr & Hfl & Hfs & Hidx & Hrdr & Hrd & Hs & Hi).
  assert (f = f1) as -> by congruence.
  assert (files c1 !! nextIdx c1 = Some f2) as Hf2' by (rewrite Hfs, Hidx; done).
  assert (newFolder c1 f2 = true) as Hnew.
  { unfold newFolder. rewrite Hidx, Hfs. rewrite decide_False by done.
    simpl. rewrite Nat.sub_0_r, Hf1. by apply bool_decide_eq_true_2. }
  destruct (folderData flate c1 (IFolder (entry f2))) as [data2| |] eqn:Hdata2.
  2,3: exfalso;
       apply (Next_new_folder_fails flate c1 w1 f2 Hf2' Hnew) with (x := (l2, st2));
       [intros d; rewrite Hdata2; done | by rewrite Hnext2].
  rewrite (Next_new_folder flate c1 w1 f2 data2 Hf2' Hnew Hdata2) in Hnext2.
  injection Hnext2 as <- <- <- <-. cbn [R].
  apply lookup_lt_Some in Hrd as Hlt. split; [lia|].
  exists data. split; [done|]. intros k.
  rewrite (LimitedReader_Read_bytes l1 k _ rd).
  - rewrite Hs, Hi, Hl1. done.
  - cbn [heap alloc logCall]. by rewrite lookup_app_l.
Qed.

End AccessMore.

(** ** The modification time *)

Lemma unpack_high a b n :
  0 ≤ n → 0 ≤ b < 2 ^ n → Z.shiftr (Z.shiftl a n + b) n = a.
Proof.
  intros Hn Hb. rewrite Z.shiftl_mul_pow2, Z.shiftr_div_pow2 by done.
  rewrite Z.div_add_l by lia. rewrite Z.div_small by done. lia.
Qed.

Lemma unpack_low a b n :
  0 ≤ n → 0 ≤ b < 2 ^ n → Z.land (Z.shiftl a n + b) (Z.ones n) = b.
Proof.
  intros Hn Hb. rewrite Z.land_ones, Z.shiftl_mul_pow2 by done.
  rewrite Z.add_comm, Z.mod_add by lia. by apply Z.mod_small.
Qed.

(** X15.  [Next] unpacks the date and time fields by the format that the
    comment in the code gives: for a date packed as
    [((year - 1980) << 9) + (month << 5) + day] and a time packed as
    [(hour << 11) + (minute << 5) + seconds / 2], with every field within
    its width, the arguments passed to [time.Date] are the year, month, day,
    hour and minute packed, and the seconds rounded down to an even number;
    and such packed values fit sixteen bits. *)
Theorem unpackTime_packed (y mo d h mi sc : Z) (f : cfFile) :
  1980 ≤ y ≤ 2107 → 0 ≤ mo ≤ 15 → 0 ≤ d ≤ 31 →
  0 ≤ h ≤ 31 → 0 ≤ mi ≤ 63 → 0 ≤ sc ≤ 63 →
  Date f = Z.shiftl (y - 1980) 9 + Z.shiftl mo 5 + d →
  Time f = Z.shiftl h 11 + Z.shiftl mi 5 + sc / 2 →
  unpackTime f = {| year := y; month := mo; day := d;
                    hour := h; min := mi; sec := 2 * (sc / 2) |} ∧
  0 ≤ Date f < 65536 ∧ 0 ≤ Time f < 65536.
Proof.
  intros Hy Hmo Hd Hh Hmi Hsc HD HT.
  assert (0 ≤ sc / 2 ≤ 31) as Hs2
    by (pose proof (Z.div_mod sc 2); pose proof (Z.mod_pos_bound sc 2); lia).
  assert (Z.shiftl mo 5 = mo * 32) as Em by (by rewrite Z.shiftl_mul_pow2).
  assert (Z.shiftl mi 5 = mi * 32) as Emi by (by rewrite Z.shiftl_mul_pow2).
  assert (Z.shiftl (y - 1980) 9 = (y - 1980) * 512) as Ey by (by rewrite Z.shiftl_mul_pow2).
  assert (Z.shiftl h 11 = h * 2048) as Eh by (by rewrite Z.shiftl_mul_pow2).
  split; [|rewrite HD, HT, Em, Emi, Ey, Eh; lia].
  unfold unpackTime. rewrite HD, HT. f_equal.
  - rewrite <- Z.add_assoc. rewrite unpack_high by (rewrite ?Em; simpl; lia). lia.
  - change 15 with (Z.ones 4).
    replace (Z.shiftl (y - 1980) 9 + Z.shiftl mo 5 + d)
      with (Z.shiftl (Z.shiftl (y - 1980) 4 + mo) 5 + d)
      by (rewrite !Z.shiftl_mul_pow2 by lia; simpl; lia).
    rewrite unpack_high by (simpl; lia). apply unpack_low; simpl; lia.
  - change 31 with (Z.ones 5).
    replace (Z.shiftl (y - 1980) 9 + Z.shiftl mo 5 + d)
      with (Z.shiftl (Z.shiftl (y - 1980) 4 + mo) 5 + d)
      by (rewrite !Z.shiftl_mul_pow2 by lia; simpl; lia).
    apply unpack_low; simpl; lia.
  - rewrite <- Z.add_assoc. apply unpack_high; rewrite ?Emi; simpl; lia.
  - change 63 with (Z.ones 6).
    replace (Z.shiftl h 11 + Z.shiftl mi 5 + sc / 2)
      with (Z.shiftl (Z.shiftl h 6 + mi) 5 + sc / 2)
      by (rewrite !Z.shiftl_mul_pow2 by lia; simpl; lia).
    rewrite unpack_high by (simpl; lia). apply unpack_low; simpl; lia.
  - change 31 with (Z.ones 5).
    replace (Z.shiftl h 11 + Z.shiftl mi 5 + sc / 2)
      with (Z.shiftl (Z.shiftl h 6 + mi) 5 + sc / 2)
      by (rewrite !Z.shiftl_mul_pow2 by lia; simpl; lia).
    rewrite unpack_low by (simpl; lia). rewrite Z.shiftl_mul_pow2 by lia. simpl. lia.
Qed.

Lemma byteZ_bound b : 0 ≤ byteZ b ≤ 255.
Proof. unfold byteZ. pose proof (Byte.to_N_bounded b). lia. Qed.

Lemma Uint16_bound b : 0 ≤ Uint16 b < 65536.
Proof.
  split; [apply Uint16_nonneg|]. unfold Uint16.
  pose proof (byteZ_bound (nth 0 b x00)) as H0.
  pose proof (byteZ_bound (nth 1 b x00)) as H1.
  pose proof (Z.add_lor_land (byteZ (nth 0 b x00)) (Z.shiftl (byteZ (nth 1 b x00)) 8))
    as Hadd.
  assert (0 ≤ Z.land (byteZ (nth 0 b x00)) (Z.shiftl (byteZ (nth 1 b x00)) 8))
    by (apply Z.land_nonneg; lia).
  rewrite Z.shiftl_mul_pow2 in * by lia. simpl in *. lia.
Qed.

Lemma readFiles_Forall (P : file → Prop) :
  (∀ b nm, P {| entry := decode_cfFile b; name := nm |}) →
  ∀ n rd j acc fl,
    readFiles rd n j acc = Ok fl → Forall P acc → Forall P fl.
Proof.
  intros HP. induction n as [|n IH]; intros rd j acc fl Hrd Hacc.
  - by injection Hrd as <-.
  - cbn [readFiles] in Hrd.
    destruct (ReadFull rd sizeof_cfFile) as [[b rd']|]; [|done].
    destruct (ReadBytes0 rd') as [fn|]; [|done].
    apply IH in Hrd; [done|]. apply Forall_app. split; [done|].
    constructor; [apply HP|done].
Qed.

(** X16.  For every file of a cabinet returned by [New], the arguments that
    [Next] passes to [time.Date] lie in these ranges: year 1980 to 2107,
    month 0 to 15, day 0 to 31, hour 0 to 31, minute 0 to 63, and an even
    number of seconds from 0 to 62.  Month 0, months above 12, day 0, hours
    above 23 and minutes or seconds above 59 are not excluded. *)
Theorem Next_time_ranges (src : list byte) (c : Cabinet) (f : file) :
  New src = Ok c → f ∈ files c →
  let t := unpackTime (entry f) in
  1980 ≤ year t ≤ 2107 ∧ 0 ≤ month t ≤ 15 ∧ 0 ≤ day t ≤ 31 ∧
  0 ≤ hour t ≤ 31 ∧ 0 ≤ min t ≤ 63 ∧ 0 ≤ sec t ≤ 62 ∧ sec t `mod` 2 = 0.
Proof.
  intros Hnew Hf.
  apply New_Ok_inv in Hnew as (_ & _ & _ & _ & _ & _ & rd2 & _ & Hfl).
  assert (Forall (λ g, 0 ≤ Date (entry g) < 65536 ∧ 0 ≤ Time (entry g) < 65536)
                 (files c)) as Hall.
  { apply (readFiles_Forall
             (λ g, 0 ≤ Date (entry g) < 65536 ∧ 0 ≤ Time (entry g) < 65536)
             ltac:(intros; simpl; split; apply Uint16_bound) _ _ _ _ _ Hfl).
    constructor. }
  rewrite Forall_forall in Hall. destruct (Hall f Hf) as [HD HT].
  cbn zeta. unfold unpackTime. cbn [year month day hour min sec].
  rewrite !Z.shiftr_div_pow2 by lia. rewrite Z.shiftl_mul_pow2 by lia.
  change 15 with (Z.ones 4). change 31 with (Z.ones 5). change 63 with (Z.ones 6).
  rewrite !Z.land_ones by lia.
  change (Z.ones 4) with 15. change (Z.ones 5) with 31. change (Z.ones 6) with 63.
  change (2 ^ 9) with 512. change (2 ^ 5) with 32. change (2 ^ 11) with 2048.
  change (2 ^ 4) with 16. change (2 ^ 6) with 64. change (2 ^ 1) with 2.
  repeat split; try (apply Z.mod_pos_bound; lia);
    try (pose proof (Z.mod_pos_bound (Date (entry f) `div` 32) 16);
         pose proof (Z.mod_pos_bound (Date (entry f)) 32);
         pose proof (Z.mod_pos_bound (Time (entry f) `div` 32) 64);
         pose proof (Z.mod_pos_bound (Time (entry f)) 32);
         pose proof (Z.div_pos (Date (entry f)) 512);
         pose proof (Z.div_pos (Time (entry f)) 2048);
         pose proof (Z.div_lt_upper_bound (Date (entry f)) 512 128);
         pose proof (Z.div_lt_upper_bound (Time (entry f)) 2048 32);
         lia).
  apply Z.mod_mul. lia.
Qed.

(** ** lvfscab.New *)

Section Metadata.

Import lvfsmeta.

Variable flate : list byte → list byte → nat → list byte * option ioerr.
Variable xml_Unmarshal : list byte → option component.

Lemma HasSuffix_nonempty nm : HasSuffix nm metainfoSuffix = true → nm ≠ "".
Proof. by intros Hs ->. Qed.

(** The loop finds the first name with the suffix, or nothing. *)
Lemma findMetadata_cases names :
  (findMetadata names = "" ∧
   Forall (λ nm, HasSuffix nm metainfoSuffix = false) names) ∨
  (∃ pre nm post,
      names = pre ++ nm :: post ∧
      Forall (λ n, HasSuffix n metainfoSuffix = false) pre ∧
      HasSuffix nm metainfoSuffix = true ∧ findMetadata names = nm).
Proof.
  induction names as [|n names IH]; [left; by split|].
  cbn [findMetadata]. destruct (HasSuffix n metainfoSuffix) eqn:Hn.
  - right. exists [], n, names. repeat split; [constructor|done].
  - destruct IH as [[He Hall]|(pre & nm & post & -> & Hpre & Hnm & Hfind)].
    + left. split; [done|]. by constructor.
    + right. exists (n :: pre), nm, post. repeat split; try done. by constructor.
Qed.

(** X17.  For an archive that [cabfile.New] accepts, [lvfscab.New] fails
    with the missing-metadata error exactly when no name of the file list
    ends in ".metainfo.xml". *)
Theorem lvfs_New_no_metadata (src : list byte) (cab : Cabinet) :
  cabfile.New src = Ok cab →
  lvfsmeta.New flate xml_Unmarshal src = Fail NoMetadata ↔
  Forall (λ nm, HasSuffix nm metainfoSuffix = false) (FileList cab).
Proof.
  intros Hcab. unfold lvfsmeta.New. rewrite Hcab.
  destruct (findMetadata_cases (FileList cab))
    as [[He Hall]|(pre & nm & post & Hnames & Hpre & Hnm & Hfind)].
  - rewrite He. rewrite decide_True by done. done.
  - rewrite Hfind. rewrite decide_False by (by apply HasSuffix_nonempty).
    split.
    + intros Hfail. exfalso.
      destruct (Content flate cab nm) as [mdr| |]; [|done..].
      destruct (xml_Unmarshal (readAll mdr)) as [comp|]; [|done].
      case_decide; [done|]. destruct (comp_Release comp) as [|rel rest]; [done|].
      by case_decide.
    + intros Hall. exfalso. rewrite Hnames in Hall.
      apply Forall_app in Hall as [_ Hall]. apply Forall_cons in Hall as [Hno _].
      congruence.
Qed.

(** X18.  When [lvfscab.New] succeeds, the cabinet it holds is the one
    [cabfile.New] returns; the metadata were read from the first file entry
    whose name ends in ".metainfo.xml", which is also the entry that
    [Content] uses for that name; the document parsed is the content of that
    entry; the identifier is the component's and is not empty; the version
    is that of the first release listed and is not empty. *)
Theorem lvfs_New_Done (src : list byte) (l : LVFSCabinet) :
  lvfsmeta.New flate xml_Unmarshal src = Done l →
  cabfile.New src = Ok (Cabinet_ l) ∧
  ∃ pre f post mdr comp rel rest,
    files (Cabinet_ l) = pre ++ f :: post ∧
    Forall (λ g, HasSuffix (name g) metainfoSuffix = false) pre ∧
    HasSuffix (name f) metainfoSuffix = true ∧
    firstMatch (files (Cabinet_ l)) (name f) f ∧
    Content flate (Cabinet_ l) (name f) = Ok mdr ∧
    xml_Unmarshal (s mdr) = Some comp ∧
    comp_Release comp = rel :: rest ∧
    ID l = comp_ID comp ∧ ID l ≠ "" ∧
    Version l = rel_Version rel ∧ Version l ≠ "".
Proof.
  unfold lvfsmeta.New.
  destruct (cabfile.New src) as [cab| |] eqn:Hcab; [|done..].
  destruct (findMetadata_cases (FileList cab))
    as [[He Hall]|(pre & nm & post & Hnames & Hpre & Hnm & Hfind)].
  { rewrite He. by rewrite decide_True. }
  rewrite Hfind. rewrite decide_False by (by apply HasSuffix_nonempty).
  destruct (Content flate cab nm) as [mdr| |] eqn:Hcontent; [|done..].
  destruct (xml_Unmarshal (readAll mdr)) as [comp|] eqn:Hxml; [|done].
  destruct (decide (comp_ID comp = "")) as [|Hid]; [done|].
  destruct (comp_Release comp) as [|rel rest] eqn:Hrel; [done|].
  destruct (decide (rel_Version rel = "")) as [|Hver]; [done|].
  intros [= <-]. cbn [Cabinet_ ID Version]. split; [done|].
  unfold FileList in Hnames.
  apply fmap_app_inv in Hnames as (fpre & frest & -> & Hfrest & Hfiles).
  symmetry in Hfrest. apply fmap_cons_inv in Hfrest as (f & fpost & -> & -> & ->).
  assert (firstMatch (fpre ++ f :: fpost) (name f) f) as Hfirst.
  { exists fpre, fpost. repeat split. apply Forall_fmap in Hpre.
    eapply Forall_impl; [exact Hpre|]. intros g Hg Heq. simpl in Hg. congruence. }
  exists fpre, f, fpost, mdr, comp, rel, rest. rewrite Hfiles.
  repeat split; try done.
  - by apply Forall_fmap in Hpre.
  - rewrite <- Hxml. unfold readAll. unfold Content in Hcontent.
    rewrite Hfiles in Hcontent.
    rewrite (contentLoop_firstMatch flate cab _ _ _ Hfirst) in Hcontent.
    apply contentOf_Ok in Hcontent as (data & _ & ->). done.
Qed.

End Metadata.

(** ** CompareVersions as an order *)

Lemma N_of_ascii_inj a b : Ascii.N_of_ascii a = Ascii.N_of_ascii b → a = b.
Proof.
  intros H. rewrite <- (Ascii.ascii_N_embedding a), <- (Ascii.ascii_N_embedding b).
  by rewrite H.
Qed.

Lemma bytes_lt_antisym a : ∀ b, a ≠ b → bytes_lt a b = negb (bytes_lt b a).
Proof.
  induction a as [|x a IH]; intros [|y b] Hne; try done. cbn [bytes_lt].
  destruct (decide (Ascii.N_of_ascii x < Ascii.N_of_ascii y)%N) as [Hlt|Hge].
  - by rewrite decide_False by lia.
  - destruct (decide (Ascii.N_of_ascii y < Ascii.N_of_ascii x)%N) as [Hgt|Hle];
      [done|].
    assert (x = y) as -> by (apply N_of_ascii_inj; lia).
    apply IH. congruence.
Qed.

Lemma strings_Compare_antisym a b : strings_Compare a b = - strings_Compare b a.
Proof.
  unfold strings_Compare. destruct (decide (a = b)) as [Heq|Hne].
  - subst. destruct (decide (b = b)); done.
  - rewrite (decide_False (P := b = a)) by congruence.
    rewrite (bytes_lt_antisym (String.list_ascii_of_string a)).
    + by destruct (bytes_lt (String.list_ascii_of_string b) _).
    + intros Heq. apply Hne.
      rewrite <- (String.string_of_list_ascii_of_string a),
              <- (String.string_of_list_ascii_of_string b). by rewrite Heq.
Qed.

Lemma compare3_antisym a b : compare3 a b = - compare3 b a.
Proof.
  unfold compare3.
  rewrite (N.compare_antisym (Major a)), (N.compare_antisym (Minor a)),
          (N.compare_antisym (Patch a)).
  repeat case_decide; try congruence;
    by destruct (_ ?= _)%N.
Qed.

(** X19.  With a structured comparison that is antisymmetric,
    [CompareVersions] is antisymmetric too: exchanging the arguments negates
    the result, whichever of the two comparisons is used; so a version
    compares equal to itself. *)
Theorem CompareVersions_antisym (L : Lib) :
  (∀ x y : Version, Compare x y = - Compare y x) →
  ∀ v1 v2 : string,
    CompareVersions v1 v2 = - CompareVersions v2 v1 ∧ CompareVersions v1 v1 = 0.
Proof.
  intros Hanti v1 v2.
  assert (∀ a b, CompareVersions a b = - CompareVersions b a) as Hswap.
  { intros a b. unfold CompareVersions.
    destruct (Make a) as [sa|], (Make b) as [sb|];
      auto using strings_Compare_antisym. }
  split; [apply Hswap|]. specialize (Hswap v1 v1). lia.
Qed.

(** X20.  With the structured versions of the specification,
    [CompareVersions] is not transitive: "1.10.0" is above "1.9.0"
    (structured), "1.9.0" is above "1.9" (as strings), but "1.10.0" is below
    "1.9" (as strings).  It does not order version strings. *)
Theorem CompareVersions_not_transitive :
  ¬ (∀ a b c : string,
       CompareVersions a b = 1 → CompareVersions b c = 1 → CompareVersions a c = 1).
Proof.
  intros Htrans.
  specialize (Htrans "1.10.0" "1.9.0" "1.9" eq_refl eq_refl).
  vm_compute in Htrans. discriminate.
Qed.

(** ** folderData: a source that ends inside the first block *)

Section Truncation.

Variable flate : list byte → list byte → nat → list byte * option ioerr.

(** X21.  For a folder that declares at least one block: when the source
    ends before the end of the first block header (also when the folder's
    offset lies beyond the source), [folderData] fails with the
    block-header error; when the header is present and declares more
    compressed bytes than the source has left, it fails with the short-read
    error that carries the number of bytes that were left. *)
Theorem folderData_first_block_truncated (c : Cabinet) (idx : Z) (fldr : cfFolder) :
  0 ≤ idx → fldrs c !! Z.to_nat idx = Some fldr → 0 < CCFData fldr →
  let start := Z.to_nat (COFFCabStart fldr) in
  let d := decode_cfData (take sizeof_cfData (drop start (r c))) in
  ((length (r c) < start + sizeof_cfData)%nat →
   folderData flate c idx = Err (TruncatedBlockHeader 0)) ∧
  ((start + sizeof_cfData ≤ length (r c))%nat →
   Z.of_nat (length (r c) - (start + sizeof_cfData)) < CBData d →
   folderData flate c idx
   = Err (TruncatedBlock (Z.of_nat (length (r c) - (start + sizeof_cfData))) 0
                         (CBData d))).
Proof.
  intros Hidx Hf Hn start d.
  rewrite (folderData_unfold flate c idx fldr Hidx Hf).
  destruct (Z.to_nat (CCFData fldr)) as [|n] eqn:Hcount; [lia|].
  cbn [dataBlocks]. unfold folderStart. split.
  - intros Hshort. rewrite ReadFull_short; [done|done|]. simpl. fold start. lia.
  - intros Hle Hcut.
    rewrite ReadFull_enough by (simpl; (done || (unfold sizeof_cfData; lia))).
    cbn [s i]. fold start. fold d.
    pose proof (Reader_Read_bytes {| s := r c; i := (start + sizeof_cfData)%nat |}
                  (Z.to_nat (CBData d))) as Hb.
    destruct (Reader_Read _ _) as [[block err] rd2]. cbn [fst s i] in Hb.
    assert (length block = (length (r c) - (start + sizeof_cfData))%nat) as Hlen
      by (rewrite Hb, length_take, length_drop; lia).
    rewrite Hlen. rewrite decide_True by lia. done.
Qed.

End Truncation.

(* ================================================================== *)
(** * Part V: the further properties at concrete archives *)
(* ================================================================== *)

Lemma New_header_errors_witness :
  New [] = Err TruncatedHeader ∧ New multipart_cab = Err UnsupportedMultiPart.
Proof.
  split.
  - apply (proj1 (New_header_errors [])). vm_compute. lia.
  - destruct (New_header_errors multipart_cab) as [_ Hlong].
    destruct Hlong as (_ & _ & _ & Hflags); [vm_compute; lia|].
    apply Hflags.
    + reflexivity.
    + repeat split.
    + split; reflexivity.
    + right. vm_compute. discriminate.
Defined.

Lemma New_Ok_invariant_witness :
  length (fldrs (cabinetOf two_folder_cab)) = 2%nat ∧
  length (files (cabinetOf two_folder_cab)) = 3%nat.
Proof.
  destruct (New_Ok_invariant two_folder_cab (cabinetOf two_folder_cab) eq_refl)
    as (_ & _ & _ & _ & _ & _ & _ & _ & Hfolders & Hfiles & _).
  split; [exact Hfolders|exact Hfiles].
Defined.

Lemma New_folder_layout_witness :
  fldrs (cabinetOf two_folder_cab) !! 1%nat = Some (folderAt two_folder_cab 1) ∧
  (36 + 8 * (1 + 1) ≤ length two_folder_cab)%nat.
Proof.
  apply (New_folder_layout two_folder_cab (cabinetOf two_folder_cab) 1 eq_refl).
  vm_compute. lia.
Defined.

Lemma New_folder_errors_witness :
  New lzx_cab = Err (UnsupportedAlgorithm 3) ∧
  New (take 40 lzx_cab) = Err (TruncatedFolder 0).
Proof.
  split.
  - destruct (New_folder_errors lzx_cab 0) as [_ Hbad].
    + vm_compute. lia.
    + reflexivity.
    + repeat split.
    + split; reflexivity.
    + split; reflexivity.
    + vm_compute. lia.
    + intros k Hk. lia.
    + apply Hbad; [vm_compute; lia|]. intros [H|H]; vm_compute in H; discriminate.
  - destruct (New_folder_errors (take 40 lzx_cab) 0) as [Hshort _].
    + vm_compute. lia.
    + reflexivity.
    + repeat split.
    + split; reflexivity.
    + split; reflexivity.
    + vm_compute. lia.
    + intros k Hk. lia.
    + apply Hshort. vm_compute. lia.
Defined.

Lemma New_file_layout_witness :
  files (cabinetOf stored_cab) !! 1%nat = Some (fileAt stored_cab 66) ∧
  name (fileAt stored_cab 66) = "b.txt" ∧
  stored_cab !! 87%nat = Some x00.
Proof.
  destruct (New_file_layout stored_cab (cabinetOf stored_cab) 1 eq_refl)
    as (Hfile & Hname & Hnul & _); [vm_compute; lia|].
  split; [exact Hfile|]. split; [|exact Hnul]. vm_compute. reflexivity.
Defined.

Lemma folderData_index_error_witness :
  folderData toy_flate (cabinetOf bad_folder_cab) 7 = Err FolderIndexOutOfRange.
Proof.
  apply (folderData_index_error toy_flate (cabinetOf bad_folder_cab) 7); vm_compute;
    discriminate.
Defined.

Lemma folderData_Ok_layout_witness :
  ∃ blks rd',
    blocksAt (folderStart (cabinetOf stored_cab)
                          {| COFFCabStart := 110; CCFData := 2; TypeCompress := 0 |})
             blks rd' ∧
    length blks = 2%nat ∧
    length (text "abcde") = declaredSize blks ∧
    i rd' = (110 + framedSize blks)%nat ∧
    (blks ≠ [] → (i rd' ≤ length stored_cab)%nat).
Proof.
  destruct (folderData_Ok_layout toy_flate (cabinetOf stored_cab) 0
              {| COFFCabStart := 110; CCFData := 2; TypeCompress := 0 |}
              (NewReader (text "abcde")) ltac:(lia) eq_refl) as [_ H].
  - vm_compute. reflexivity.
  - exact H.
Defined.

Lemma folderData_Panic_iff_witness :
  ∃ fldr, fldrs (cabinetOf short_block_cab) !! 0%nat = Some fldr ∧
          TypeCompress fldr = compMSZIP ∧
          ∃ pre blk rd' outs,
            blocksAt (folderStart (cabinetOf short_block_cab) fldr) (pre ++ [blk]) rd' ∧
            (length pre < Z.to_nat (CCFData fldr))%nat ∧
            mszipChain toy_flate [] pre outs ∧ (length blk.2 < 2)%nat.
Proof.
  apply (proj1 (folderData_Panic_iff toy_flate (cabinetOf short_block_cab) 0
                  ltac:(lia))).
  vm_compute. reflexivity.
Defined.

Lemma Next_end_iff_witness :
  Next toy_flate (cabinetOf (archive [] [])) emptyWorld
  = (Err EndOfSequence, cabinetOf (archive [] []), emptyWorld).
Proof.
  apply (proj2 (Next_end_iff toy_flate (cabinetOf (archive [] [])) emptyWorld)).
  vm_compute. lia.
Defined.

Lemma Next_state_witness :
  ∃ f, files (cabinetOf two_folder_cab) !! 0%nat = Some f ∧
       nextIdx (Next toy_flate (cabinetOf two_folder_cab) emptyWorld).1.2 = 1%nat ∧
       statOf {| entry := {| CBFile := 2; UOffFolderStart := 0; IFolder := 0;
                             Date := 0; Time := 0; Attribs := 0 |};
                 name := "dup" |} = statOf f.
Proof.
  destruct (Next_state toy_flate (cabinetOf two_folder_cab) emptyWorld
              (Ok ({| R := 0%nat; N := 2 |},
                   statOf {| entry := {| CBFile := 2; UOffFolderStart := 0;
                                         IFolder := 0; Date := 0; Time := 0;
                                         Attribs := 0 |};
                             name := "dup" |}))
              (Next toy_flate (cabinetOf two_folder_cab) emptyWorld).1.2
              (Next toy_flate (cabinetOf two_folder_cab) emptyWorld).2)
    as (_ & _ & _ & _ & _ & _ & f & Hf & Hidx & Hst & _).
  - vm_compute. reflexivity.
  - exists f. split; [exact Hf|]. split; [exact Hidx|exact Hst].
Defined.

Lemma walk_table_order_witness :
  (fs_name ∘ snd) <$> (walk toy_flate 4 (cabinetOf two_folder_cab) emptyWorld).1.1.1
  = FileList (cabinetOf two_folder_cab).
Proof.
  destruct (walk toy_flate 4 (cabinetOf two_folder_cab) emptyWorld)
    as [[[xs stop] c'] w'] eqn:Hwalk.
  destruct (walk_table_order toy_flate two_folder_cab (cabinetOf two_folder_cab)
              4 emptyWorld xs stop c' w' eq_refl Hwalk) as [_ Hend].
  apply Hend. vm_compute in Hwalk. congruence.
Defined.

Lemma Content_Next_agree_witness :
  i (NewReader (text "ab")) = 0%nat ∧
  ∀ k, (LimitedReader_Read {| R := 0%nat; N := 2 |} k
          (Next toy_flate (cabinetOf two_folder_cab) emptyWorld).2).1.1.1
       = take k (text "ab").
Proof.
  apply (Content_Next_agree toy_flate (cabinetOf two_folder_cab) emptyWorld
           {| entry := {| CBFile := 2; UOffFolderStart := 0; IFolder := 0;
                          Date := 0; Time := 0; Attribs := 0 |};
              name := "dup" |}
           {| R := 0%nat; N := 2 |}
           (statOf {| entry := {| CBFile := 2; UOffFolderStart := 0; IFolder := 0;
                                  Date := 0; Time := 0; Attribs := 0 |};
                      name := "dup" |})
           (Next toy_flate (cabinetOf two_folder_cab) emptyWorld).1.2
           (Next toy_flate (cabinetOf two_folder_cab) emptyWorld).2
           (NewReader (text "ab"))).
  - apply (cacheCoherent_New toy_flate two_folder_cab). reflexivity.
  - reflexivity.
  - eexists [], _. split; [reflexivity|]. split; [reflexivity|]. constructor.
  - vm_compute. reflexivity.
  - vm_compute. reflexivity.
Defined.

Lemma Next_reader_survives_transition_witness :
  ∃ data,
    folderData toy_flate (advance (advance (setReader (cabinetOf two_folder_cab) 0%nat)))
               0 = Ok data ∧
    ∀ k, (LimitedReader_Read {| R := 0%nat; N := 2 |} k
            {| heap := [{| s := text "abc"; i := 1 |};
                        {| s := text "xyz12"; i := 0 |}];
               calls := [0; 1] |}).1.1.1
         = take k (slice (s data) 1 2).
Proof.
  apply (Next_reader_survives_transition toy_flate
           (advance (setReader (cabinetOf two_folder_cab) 0%nat))
           {| heap := [{| s := text "abc"; i := 0 |}]; calls := [0] |}
           {| entry := {| CBFile := 2; UOffFolderStart := 1; IFolder := 0;
                          Date := 0; Time := 0; Attribs := 0 |};
              name := "b" |}
           {| entry := {| CBFile := 5; UOffFolderStart := 0; IFolder := 1;
                          Date := 0; Time := 0; Attribs := 0 |};
              name := "dup" |}
           {| R := 0%nat; N := 2 |} {| R := 1%nat; N := 5 |}
           (statOf {| entry := {| CBFile := 2; UOffFolderStart := 1; IFolder := 0;
                                  Date := 0; Time := 0; Attribs := 0 |};
                      name := "b" |})
           (statOf {| entry := {| CBFile := 5; UOffFolderStart := 0; IFolder := 1;
                                  Date := 0; Time := 0; Attribs := 0 |};
                      name := "dup" |})
           (advance (advance (setReader (cabinetOf two_folder_cab) 0%nat)))
           (advance (setReader
                       (advance (advance (setReader (cabinetOf two_folder_cab) 0%nat)))
                       1%nat))
           {| heap := [{| s := text "abc"; i := 1 |}]; calls := [0] |}).
  - apply (cacheCoherent_Next toy_flate (cabinetOf two_folder_cab) emptyWorld
             ({| R := 0%nat; N := 2 |},
              statOf {| entry := {| CBFile := 2; UOffFolderStart := 0; IFolder := 0;
                                    Date := 0; Time := 0; Attribs := 0 |};
                        name := "dup" |})).
    + apply (cacheCoherent_New toy_flate two_folder_cab). reflexivity.
    + vm_compute. reflexivity.
  - reflexivity.
  - reflexivity.
  - vm_compute. discriminate.
  - vm_compute. reflexivity.
  - vm_compute. reflexivity.
Defined.

Lemma unpackTime_packed_witness :
  unpackTime {| CBFile := 0; UOffFolderStart := 0; IFolder := 0;
                Date := 20079; Time := 25558; Attribs := 0 |}
  = {| year := 2019; month := 3; day := 15; hour := 12; min := 30; sec := 44 |}.
Proof.
  apply (unpackTime_packed 2019 3 15 12 30 45
           {| CBFile := 0; UOffFolderStart := 0; IFolder := 0;
              Date := 20079; Time := 25558; Attribs := 0 |});
    try lia; reflexivity.
Defined.

Lemma Next_time_ranges_witness :
  1980 ≤ year (unpackTime (entry (fileAt stored_cab 44))) ≤ 2107.
Proof.
  destruct (Next_time_ranges stored_cab (cabinetOf stored_cab) (fileAt stored_cab 44)
              eq_refl) as [Hyear _].
  - vm_compute. apply list_elem_of_here.
  - exact Hyear.
Defined.

Lemma lvfs_New_no_metadata_witness :
  lvfsmeta.New toy_flate toy_xml stored_cab = lvfsmeta.Fail lvfsmeta.NoMetadata.
Proof.
  apply (proj2 (lvfs_New_no_metadata toy_flate toy_xml stored_cab
                  (cabinetOf stored_cab) eq_refl)).
  vm_compute. repeat constructor.
Defined.

Lemma lvfs_New_Done_witness :
  cabfile.New lvfs_cab = Ok (cabinetOf lvfs_cab).
Proof.
  apply (lvfs_New_Done toy_flate toy_xml lvfs_cab
           {| lvfsmeta.Cabinet_ := cabinetOf lvfs_cab;
              lvfsmeta.ID := "org.foo.bar"; lvfsmeta.Version := "1.2.6" |}).
  vm_compute. reflexivity.
Defined.

Lemma CompareVersions_antisym_witness :
  CompareVersions "1.0.1" "1.0.0" = - CompareVersions "1.0.0" "1.0.1".
Proof.
  apply (CompareVersions_antisym spec_lib compare3_antisym "1.0.1" "1.0.0").
Defined.

Lemma folderData_first_block_truncated_witness :
  folderData toy_flate (cabinetOf (take 120 stored_cab)) 0
  = Err (TruncatedBlock 2 0 3).
Proof.
  apply (proj2 (folderData_first_block_truncated toy_flate
                  (cabinetOf (take 120 stored_cab)) 0
                  {| COFFCabStart := 110; CCFData := 2; TypeCompress := 0 |}
                  ltac:(lia) eq_refl ltac:(simpl; lia))).
  - vm_compute. lia.
  - vm_compute. reflexivity.
Defined.
